(** * Command loading: release-track resolution and the common-data loader

    A shallow embedding of [googlecloudsdk/calliope/command_loading.py]:
    - [_ExtractReleaseTrackImplementation], the release-track resolver;
    - [_ImplementationsFromModule], the inspection of a native module;
    - [CreateYamlLoader] and the [Loader] class it builds, with its
      [!COMMON] include and its [_COMMON_] merge.

    Python exceptions are values of [exception]; a function that may raise
    returns a [result]. *)

From Stdlib Require Import ZArith Lia Ascii.
From stdpp Require Import base option list gmap sets strings pretty.

Local Open Scope string_scope.
Local Open Scope list_scope.

#[local] Set Warnings "-clear-no-such-hyp".

(** ** Exceptions and results *)

(** The three exception classes of the file, with the text of their message,
    and the exceptions of the Python runtime and of the YAML engine that the
    loader lets through.  [CommandLoadFailure] keeps of its root exception
    the text, [str(root_exception)].  [SystemExit] and [KeyboardInterrupt]
    are the two that do not derive from [Exception]. *)
Inductive exception :=
  | CommandLoadFailure (command : string) (root_exception : string)
  | LayoutException (msg : string)
  | ReleaseTrackNotImplementedException (msg : string)
  | AttributeError (msg : string)
  | TypeError (msg : string)
  | IOError (msg : string)
  | YAMLError (msg : string)
  | ValueError (msg : string)
  | ImportError (msg : string)
  | SystemExit (code : string)
  | KeyboardInterrupt.

(** [isinstance(e, Exception)]: what [except Exception] catches. *)
Definition is_Exception (e : exception) : bool :=
  match e with
  | SystemExit _ | KeyboardInterrupt => false
  | _ => true
  end.

(** [str(e)]: the message of the exception; [CommandLoadFailure] builds
    its message in [__init__], lines 33-35. *)
Definition exception_str (e : exception) : string :=
  match e with
  | CommandLoadFailure command root_exception =>
      "Problem loading " +:+ command +:+ ": " +:+ root_exception +:+ "."
  | LayoutException msg | ReleaseTrackNotImplementedException msg
  | AttributeError msg | TypeError msg | IOError msg | YAMLError msg
  | ValueError msg | ImportError msg => msg
  | SystemExit code => code
  | KeyboardInterrupt => ""
  end.

Inductive result (A : Type) :=
  | Ok (a : A)
  | Raise (e : exception).
Arguments Ok {A} a.
Arguments Raise {A} e.

Definition is_LayoutException {A} (r : result A) : bool :=
  match r with Raise (LayoutException _) => true | _ => false end.

Definition is_Ok {A} (r : result A) : bool :=
  match r with Ok _ => true | Raise _ => false end.

(** [', '.join(l)] *)
Definition join (sep : string) (l : list string) : string :=
  match l with
  | [] => ""
  | x :: l' => foldl (λ acc y, acc +:+ sep +:+ y) x l'
  end.

(** A computation that raises exceptions and records, in order, the calls
    it makes to the outside: [(calls, result)]. *)
Definition W (E A : Type) : Type := (list E * result A)%type.

Definition ret {E A} (a : A) : W E A := ([], Ok a).
Definition raise {E A} (e : exception) : W E A := ([], Raise e).
Definition lift {E A} (r : result A) : W E A := ([], r).
Definition bind {E A B} (m : W E A) (f : A → W E B) : W E B :=
  match m with
  | (calls, Ok a) => let '(calls', r) := f a in (calls ++ calls', r)
  | (calls, Raise e) => (calls, Raise e)
  end.

Arguments ret : simpl never.
Arguments raise : simpl never.
Arguments lift : simpl never.
Arguments bind : simpl never.

Notation "'do' x <- m ; k" := (bind m (λ x, k))
  (at level 10, x name, m at level 100, k at level 200,
   format "'[v' 'do'  x  <-  m ; '/' k ']'").

(** ** The release-track resolver *)

Section resolver.
(** [base.ReleaseTrack] is declared outside this file: a type with
    equality and hashing (the tracks are put in sets), an [id], and a
    [str()] conversion. *)
Context `{Countable ReleaseTrack}.
Variable track_id : ReleaseTrack → string.
Variable track_str : ReleaseTrack → string.

(** The order in which the interpreter iterates over a set of tracks.
    Python leaves it unspecified (it follows the hashes of the elements
    and the history of the set), so it is a parameter: the resolver is
    defined for every order, and only what is said of the tracks that a
    message lists assumes that the iteration visits the elements of the
    set.  A call of the resolver iterates over one set at most, the
    duplicates it raises on. *)
Variable set_iter : gset ReleaseTrack → list ReleaseTrack.

(** The producer of an implementation: a Python callable, passed around
    and never called by the resolver. *)
Context {Impl : Type}.

(** An implementation: [(func, valid_tracks)].  [valid_tracks] is a set;
    [ValidReleaseTracks()] may also return [None], which every test of
    the resolver ([not valid_tracks]) treats as the empty set. *)
Local Abbreviation implementation := (Impl * gset ReleaseTrack)%type.

Definition not_implemented_msg (expected_track : ReleaseTrack)
    (impl_file : string) : string :=
  "No implementation for release track [" +:+ track_id expected_track
    +:+ "] for element: [" +:+ impl_file +:+ "]".

Definition undeclared_msg (impl_file : string) : string :=
  "Multiple implementations defined for element: [" +:+ impl_file
    +:+ "]. Each must explicitly declare valid release tracks.".

(** [', '.join([str(d) for d in duplicates])]: the duplicates are joined
    in the iteration order of the set. *)
Definition duplicates_msg (duplicates : gset ReleaseTrack)
    (impl_file : string) : string :=
  "Multiple definitions for release tracks ["
    +:+ join ", " (track_str <$> set_iter duplicates)
    +:+ "] for element: [" +:+ impl_file +:+ "]".

(** The [for impl, valid_tracks in implementations] loop, lines 459-472,
    with [implemented_release_tracks] as accumulator. *)
Fixpoint check_conflicts (impl_file : string)
    (implemented_release_tracks : gset ReleaseTrack)
    (implementations : list implementation) : result unit :=
  match implementations with
  | [] => Ok tt
  | (_, valid_tracks) :: rest =>
      if bool_decide (valid_tracks = ∅) then
        Raise (LayoutException (undeclared_msg impl_file))
      else
        let duplicates := implemented_release_tracks ∩ valid_tracks in
        if bool_decide (duplicates = ∅) then
          check_conflicts impl_file
            (implemented_release_tracks ∪ valid_tracks) rest
        else
          Raise (LayoutException (duplicates_msg duplicates impl_file))
  end.

Definition _ExtractReleaseTrackImplementation (impl_file : string)
    (expected_track : ReleaseTrack)
    (implementations : list implementation) : result Impl :=
  match implementations with
  | [(impl, valid_tracks)] =>
      if bool_decide (valid_tracks = ∅)
         || bool_decide (expected_track ∈ valid_tracks)
      then Ok impl
      else Raise (ReleaseTrackNotImplementedException
                    (not_implemented_msg expected_track impl_file))
  | _ =>
      match check_conflicts impl_file ∅ implementations with
      | Raise e => Raise e
      | Ok _ =>
          let valid_commands_or_groups :=
            (filter (λ c : implementation, expected_track ∈ c.2)
                    implementations).*1 in
          match valid_commands_or_groups with
          | [impl] => Ok impl
          | _ => Raise (ReleaseTrackNotImplementedException
                          (not_implemented_msg expected_track impl_file))
          end
      end
  end.

(** The number of candidates that claim a track. *)
Definition claims (t : ReleaseTrack) (implementations : list implementation)
    : nat :=
  length (filter (λ c : implementation, t ∈ c.2) implementations).

(** The track sets of a list are pairwise disjoint. *)
Definition pairwise_disjoint (implementations : list implementation)
    : Prop :=
  ∀ i j ci cj, i ≠ j →
    implementations !! i = Some ci → implementations !! j = Some cj →
    ci.2 ## cj.2.

End resolver.

(** ** Inspection of a native module *)

Section module_inspection.
Context `{Countable ReleaseTrack}.

(** What the loader reads of a class found in a module: its name, whether
    it is a subclass of [base.Command], of [base.Group], and what its
    [ValidReleaseTracks()] returns. *)
Record pyclass := {
  __name__ : string;
  issubclass_Command : bool;
  issubclass_Group : bool;
  ValidReleaseTracks : gset ReleaseTrack;
}.

(** A value of [module.__dict__.values()]: a class
    ([issubclass(type(v), type)]) or anything else. *)
Inductive module_attribute :=
  | TypeObject (c : pyclass)
  | OtherObject.

(** The collecting loop, lines 349-354; the lists are returned as
    [(commands, groups)]. *)
Fixpoint collect (module_attributes : list module_attribute)
    (commands groups : list pyclass) : list pyclass * list pyclass :=
  match module_attributes with
  | [] => (commands, groups)
  | TypeObject command_or_group :: rest =>
      if issubclass_Command command_or_group then
        collect rest (commands ++ [command_or_group]) groups
      else if issubclass_Group command_or_group then
        collect rest commands (groups ++ [command_or_group])
      else collect rest commands groups
  | OtherObject :: rest => collect rest commands groups
  end.

Definition groups_in_command_msg (groups : list pyclass)
    (mod_file : string) : string :=
  "You cannot define groups [" +:+ join ", " (__name__ <$> groups)
    +:+ "] in a command file: [" +:+ mod_file +:+ "]".

Definition no_commands_msg (mod_file : string) : string :=
  "No commands defined in file: [" +:+ mod_file +:+ "]".

Definition commands_in_group_msg (commands : list pyclass)
    (mod_file : string) : string :=
  "You cannot define commands [" +:+ join ", " (__name__ <$> commands)
    +:+ "] in a command group file: [" +:+ mod_file +:+ "]".

Definition no_groups_msg (mod_file : string) : string :=
  "No command groups defined in file: [" +:+ mod_file +:+ "]".

(** The producer [lambda c=c: c] is represented by the class it returns. *)
Definition _ImplementationsFromModule (mod_file : string)
    (module_attributes : list module_attribute) (is_command : bool)
    : result (list (pyclass * gset ReleaseTrack)) :=
  let '(commands, groups) := collect module_attributes [] [] in
  if is_command then
    if bool_decide (groups ≠ []) then
      Raise (LayoutException (groups_in_command_msg groups mod_file))
    else if bool_decide (commands = []) then
      Raise (LayoutException (no_commands_msg mod_file))
    else Ok ((λ c, (c, ValidReleaseTracks c)) <$> commands)
  else
    if bool_decide (commands ≠ []) then
      Raise (LayoutException (commands_in_group_msg commands mod_file))
    else if bool_decide (groups = []) then
      Raise (LayoutException (no_groups_msg mod_file))
    else Ok ((λ c, (c, ValidReleaseTracks c)) <$> groups).

(** The tags of the partition: the [elif] gives [base.Command] priority. *)
Definition command_tagged (a : module_attribute) : bool :=
  match a with
  | TypeObject c => issubclass_Command c
  | OtherObject => false
  end.

Definition group_tagged (a : module_attribute) : bool :=
  match a with
  | TypeObject c => negb (issubclass_Command c) && issubclass_Group c
  | OtherObject => false
  end.

End module_inspection.
Arguments pyclass ReleaseTrack {_ _}.
Arguments module_attribute ReleaseTrack {_ _}.

(** ** Python values and the operations the loader applies to them *)

(** The objects a YAML document is made of.  A [dict] is a finite map;
    the documents modelled have text keys.  Floats and the other scalar
    types of the engine are left out. *)
#[warnings="-register-all"]
Inductive object :=
  | VNone
  | VBool (b : bool)
  | VInt (z : Z)
  | VStr (s : string)
  | VList (l : list object)
  | VDict (m : gmap string object).

(** Truth value of an object: [if value:] *)
Definition truthy (v : object) : bool :=
  match v with
  | VNone => false
  | VBool b => b
  | VInt z => negb (z =? 0)%Z
  | VStr s => negb (String.eqb s "")
  | VList l => match l with [] => false | _ :: _ => true end
  | VDict m => negb (bool_decide (size m = 0))
  end.

Definition type_name (v : object) : string :=
  match v with
  | VNone => "NoneType"
  | VBool _ => "bool"
  | VInt _ => "int"
  | VStr _ => "str"
  | VList _ => "list"
  | VDict _ => "dict"
  end.

(** [s.split(sep)] for a separator of one character. *)
Fixpoint split (sep : Ascii.ascii) (s : string) : list string :=
  match s with
  | "" => [""]
  | String c s' =>
      if Ascii.eqb c sep then "" :: split sep s'
      else match split sep s' with
           | x :: xs => String c x :: xs
           | [] => [String c ""]
           end
  end.

(** [s[n:]] *)
Fixpoint string_drop (n : nat) (s : string) : string :=
  match n, s with
  | O, _ => s
  | S n', String _ s' => string_drop n' s'
  | S _, "" => ""
  end.

(** [needle in s] *)
Fixpoint contains (needle s : string) : bool :=
  String.prefix needle s ||
  match s with
  | "" => false
  | String _ s' => contains needle s'
  end.

(** The characters of a string, as iteration over it yields them. *)
Fixpoint characters (s : string) : list object :=
  match s with
  | "" => []
  | String c s' => VStr (String c "") :: characters s'
  end.

(** [posixpath.dirname] and [posixpath.join], on the text of the path. *)
Fixpoint rstrip_slash_rev (rev : list Ascii.ascii) : list Ascii.ascii :=
  match rev with
  | c :: rev' => if Ascii.eqb c "/"%char then rstrip_slash_rev rev' else rev
  | [] => []
  end.

Fixpoint drop_basename_rev (rev : list Ascii.ascii) : list Ascii.ascii :=
  match rev with
  | c :: rev' => if Ascii.eqb c "/"%char then rev else drop_basename_rev rev'
  | [] => []
  end.

Definition os_path_dirname (p : string) : string :=
  let head_rev := drop_basename_rev (reverse (String.list_ascii_of_string p)) in
  match rstrip_slash_rev head_rev with
  | [] => String.string_of_list_ascii (reverse head_rev)
  | stripped => String.string_of_list_ascii (reverse stripped)
  end.

Definition endswith_slash (p : string) : bool :=
  match reverse (String.list_ascii_of_string p) with
  | c :: _ => Ascii.eqb c "/"%char
  | [] => false
  end.

Definition os_path_join (a b : string) : string :=
  if String.prefix "/" b then b
  else if String.eqb a "" || endswith_slash a then a +:+ b
  else a +:+ "/" +:+ b.


(** ** The YAML engine, as the loader uses it *)

(** The engine composes the text of a document into a tree of nodes and
    constructs a Python object from each node.  A scalar node with a
    standard tag is given by the object the engine constructs from it; a
    scalar tagged [!COMMON] keeps its text.  Mapping keys are text, and
    none is the merge key [<<] of YAML.  Anchors and aliases are left out:
    the nodes form a tree. *)
Inductive scalar :=
  | SNone
  | SBool (b : bool)
  | SInt (z : Z)
  | SStr (s : string).

Definition construct_scalar (s : scalar) : object :=
  match s with
  | SNone => VNone
  | SBool b => VBool b
  | SInt z => VInt z
  | SStr s => VStr s
  end.

#[warnings="-register-all"]
Inductive node :=
  | ScalarNode (s : scalar)
  | IncludeNode (attribute_path : string)
  | SequenceNode (items : list node)
  | MappingNode (pairs : list (string * node)).

(** What a collection under construction holds for a child.  The engine
    constructs a scalar at once, but creates a nested sequence or mapping
    empty and fills it only after the parent is complete: while the parent
    is post-processed, such a child is [Pending], an empty collection for
    the methods of the loader, whatever the object it carries (the empty
    collection it is then, or the object it becomes).  An object taken
    from the common data is [Complete]. *)
Inductive slot :=
  | Complete (v : object)
  | Pending (v : object).

Definition completed (s : slot) : object :=
  match s with Complete v | Pending v => v end.

(** Two slots that a method of the loader cannot tell apart: the same
    complete object, or two nested collections, whatever they will
    hold. *)
Definition same_shape (s1 s2 : slot) : Prop :=
  match s1, s2 with
  | Complete v1, Complete v2 => v1 = v2
  | Pending _, Pending _ => True
  | _, _ => False
  end.

(** The truth value of a slot when the parent looks at it. *)
Definition slot_truthy (s : slot) : bool :=
  match s with Complete v => truthy v | Pending _ => false end.

Definition is_collection (n : node) : bool :=
  match n with
  | SequenceNode _ | MappingNode _ => true
  | ScalarNode _ | IncludeNode _ => false
  end.

(** The children of a collection node, in the order of the document. *)
Definition children (n : node) : list node :=
  match n with
  | SequenceNode items => items
  | MappingNode pairs => pairs.*2
  | ScalarNode _ | IncludeNode _ => []
  end.

(** The number of levels of collections in a node. *)
Fixpoint height (n : node) : nat :=
  match n with
  | ScalarNode _ | IncludeNode _ => 0
  | SequenceNode items =>
      S (foldr (λ child h, height child `max` h) 0 items)
  | MappingNode pairs =>
      S (foldr (λ pair h, height pair.2 `max` h) 0 pairs)
  end.

(** The collections of a node that lie [depth] levels below it, from
    left to right. *)
Fixpoint generators_at (depth : nat) (n : node) : list node :=
  match depth with
  | 0 => if is_collection n then [n] else []
  | S depth' => concat (generators_at depth' <$> children n)
  end.

(** The order in which the engine completes the collections of a
    document.  [construct_object] creates a sequence or a mapping empty
    and appends its constructor, a generator, to [state_generators];
    [construct_document] then runs the generators in rounds, first in,
    first out, and the generators that a round appends run in the next
    round: the collections are completed level by level, each level from
    left to right. *)
Definition generators (n : node) : list node :=
  concat ((λ depth, generators_at depth n) <$> seq 0 (height n)).

(** The constructor of the engine over the methods that a loader class
    registers or overrides: the constructor of the tag [!COMMON], and
    [construct_sequence] and [construct_mapping], which the engine calls
    on every sequence and mapping node.  The two methods are given as
    functions of what [super()] returns: the slots of the items, and the
    mapping of the pairs, where a later pair overwrites an earlier one of
    the same key ([mapping[key] = value]). *)
Section engine.
Context {E : Type}.
Variable construct_tagged : string → W E object.
Variable self_construct_sequence : list slot → W E (list slot).
Variable self_construct_mapping : gmap string slot → W E (gmap string slot).

(** The slots that [super().construct_sequence] and
    [super().construct_mapping] build from the children of a node, each
    child constructed by [construct]. *)
Definition construct_child (construct : node → W E object) (child : node)
    : W E slot :=
  do v <- construct child;
  ret (if is_collection child then Pending v else Complete v).

Definition construct_items (construct : node → W E object)
    : list node → W E (list slot) :=
  fix go (l : list node) :=
    match l with
    | [] => ret []
    | child :: l' =>
        do v <- construct_child construct child;
        do vs <- go l';
        ret (v :: vs)
    end.

Definition construct_pairs (construct : node → W E object)
    : gmap string slot → list (string * node) → W E (gmap string slot) :=
  fix go (mapping : gmap string slot) (l : list (string * node)) :=
    match l with
    | [] => ret mapping
    | (key, child) :: l' =>
        do v <- construct_child construct child;
        go (<[key := v]> mapping) l'
    end.

(** [construct_object(node)] as it returns: a scalar is constructed at
    once, with a call of the constructor of its tag; a sequence or a
    mapping is returned empty, to be completed by its generator. *)
Definition construct_shallow (n : node) : W E object :=
  match n with
  | ScalarNode s => ret (construct_scalar s)
  | IncludeNode text => construct_tagged text
  | SequenceNode _ => ret (VList [])
  | MappingNode _ => ret (VDict ∅)
  end.

(** The generator of a collection: it constructs the children, nested
    collections still empty, and calls the method of the loader.  What
    the method returns fills the collection; the generator itself gives
    nothing. *)
Definition run_generator (n : node) : W E unit :=
  match n with
  | SequenceNode items =>
      do data <- construct_items construct_shallow items;
      do _ <- self_construct_sequence data;
      ret tt
  | MappingNode pairs =>
      do data <- construct_pairs construct_shallow ∅ pairs;
      do _ <- self_construct_mapping data;
      ret tt
  | ScalarNode _ | IncludeNode _ => ret tt
  end.

Fixpoint run_generators (queue : list node) : W E unit :=
  match queue with
  | [] => ret tt
  | n :: queue' => do _ <- run_generator n; run_generators queue'
  end.

(** The object that a node stands for once all its collections are
    complete: every collection holds what the method of the loader makes
    of its children, nested collections [Pending] in the data of the
    method and complete in the object. *)
Fixpoint construct_node (n : node) : W E object :=
  match n with
  | ScalarNode s => ret (construct_scalar s)
  | IncludeNode text => construct_tagged text
  | SequenceNode items =>
      do data <- construct_items construct_node items;
      do data <- self_construct_sequence data;
      ret (VList (completed <$> data))
  | MappingNode pairs =>
      do data <- construct_pairs construct_node ∅ pairs;
      do data <- self_construct_mapping data;
      ret (VDict (completed <$> data))
  end.

(** [construct_document(node)]: the root is constructed, then the
    generators run in the order of the engine; the first exception ends
    the construction.  When none is raised the document is the object
    of the root, all collections complete; the calls are those of the
    root and of the generators, in the order in which they were made. *)
Definition construct_document (n : node) : W E object :=
  do _ <- construct_shallow n;
  do _ <- run_generators (generators n);
  lift (construct_node n).2.

End engine.

(** [yaml.Loader], the plain loader: no constructor is registered for the
    tag [!COMMON], and the two methods are those of the engine. *)
Definition no_constructor (text : string) : W string object :=
  raise (YAMLError "could not determine a constructor for the tag '!COMMON'").

Definition yaml_Loader_construct_object (n : node) : W string object :=
  construct_document no_constructor ret ret n.

Definition construct_object (n : node) : result object :=
  (yaml_Loader_construct_object n).2.

(** ** The loader built by [CreateYamlLoader] *)

Definition INCLUDE_MACRO : string := "!COMMON".
Definition MERGE_MACRO : string := "_COMMON_".

(** The class [Loader] closes over [impl_path] and [common_data];
    [common_data] is [None] when the directory has no [__init__.yaml]. *)
Record Loader := {
  impl_path : string;
  common_data : object;
}.

(** The methods of [Loader] record the attribute paths [_GetData] is
    called with: what the parse asked of the common data. *)
Abbreviation M := (W string).

Definition no_common_data_msg (impl_path : string) : string :=
  "Command [" +:+ impl_path
    +:+ "] references common command data but it does not exist.".

Definition no_attribute_msg (impl_path attribute attribute_path : string)
    : string :=
  "Command [" +:+ impl_path
    +:+ "] references common command data attribute [" +:+ attribute
    +:+ "] in path [" +:+ attribute_path +:+ "] but it does not exist.".

(** The loop of [_GetData], lines 279-285: [value.get] exists on a [dict]
    only. *)
Fixpoint get_attributes (impl_path attribute_path : string)
    (attributes : list string) (value : object) : result object :=
  match attributes with
  | [] => Ok value
  | attribute :: rest =>
      match value with
      | VDict m =>
          let value := default VNone (m !! attribute) in
          if truthy value then
            get_attributes impl_path attribute_path rest value
          else
            Raise (LayoutException
                     (no_attribute_msg impl_path attribute attribute_path))
      | _ =>
          Raise (AttributeError
                   ("'" +:+ type_name value
                      +:+ "' object has no attribute 'get'"))
      end
  end.

(** What [_GetData] returns or raises. *)
Definition _GetData_result (self : Loader) (attribute_path : string)
    : result object :=
  if truthy (common_data self) then
    get_attributes (impl_path self) attribute_path
                   (split "." attribute_path) (common_data self)
  else
    Raise (LayoutException (no_common_data_msg (impl_path self))).

Definition _GetData (self : Loader) (attribute_path : string) : M object :=
  ([attribute_path], _GetData_result self attribute_path).

Arguments _GetData : simpl never.

(** [Loader.include], the constructor of the tag [!COMMON]. *)
Definition include (self : Loader) (attribute_path : string) : M object :=
  _GetData self attribute_path.

(** [data.update(other)].  A mapping is merged, its entries overwriting
    those of [data].  Any other object is iterated over, and every element
    is unpacked as a sequence of length two, a key and a value: a list of
    two elements, a text of two characters, a mapping of two keys (in the
    order of its enumeration, which Python leaves unspecified).  The key
    must be hashable.  The mappings modelled hold text keys: an entry
    whose key is [None], a boolean or a number is not kept, and the update
    goes on. *)
Definition update_unpack (index : nat) (element : object)
    : result (object * object) :=
  let unpack (l : list object) :=
    match l with
    | [key; value] => Ok (key, value)
    | _ => Raise (ValueError
                    ("dictionary update sequence element #" +:+ pretty index
                       +:+ " has length " +:+ pretty (length l)
                       +:+ "; 2 is required"))
    end in
  match element with
  | VList l => unpack l
  | VStr s => unpack (characters s)
  | VDict m => unpack (VStr <$> (map_to_list m).*1)
  | VNone | VBool _ | VInt _ =>
      Raise (TypeError
               ("cannot convert dictionary update sequence element #"
                  +:+ pretty index +:+ " to a sequence"))
  end.

Definition update_setitem (data : gmap string slot) (key value : object)
    : result (gmap string slot) :=
  match key with
  | VStr s => Ok (<[s := Complete value]> data)
  | VNone | VBool _ | VInt _ => Ok data
  | VList _ | VDict _ =>
      Raise (TypeError ("unhashable type: '" +:+ type_name key +:+ "'"))
  end.

Fixpoint update_from_sequence (index : nat) (data : gmap string slot)
    (elements : list object) : result (gmap string slot) :=
  match elements with
  | [] => Ok data
  | element :: rest =>
      match update_unpack index element with
      | Raise e => Raise e
      | Ok (key, value) =>
          match update_setitem data key value with
          | Raise e => Raise e
          | Ok data => update_from_sequence (S index) data rest
          end
      end
  end.

Definition dict_update (data : gmap string slot) (other : object)
    : result (gmap string slot) :=
  match other with
  | VDict m => Ok ((Complete <$> m) ∪ data)
  | VList l => update_from_sequence 0 data l
  | VStr s => update_from_sequence 0 data (characters s)
  | VNone | VBool _ | VInt _ =>
      Raise (TypeError ("'" +:+ type_name other
                          +:+ "' object is not iterable"))
  end.

(** [new_list.extend(other)]: the elements of a list, the characters of a
    string, the keys of a mapping (in the order of its enumeration, which
    Python leaves unspecified). *)
Definition list_extend (new_list : list slot) (other : object)
    : result (list slot) :=
  match other with
  | VList l => Ok (new_list ++ (Complete <$> l))
  | VStr s => Ok (new_list ++ (Complete <$> characters s))
  | VDict m => Ok (new_list ++ (Complete ∘ VStr <$> (map_to_list m).*1))
  | _ => Raise (TypeError ("'" +:+ type_name other
                             +:+ "' object is not iterable"))
  end.

(** [for path in attribute_path.split(','): data.update(self._GetData(path))] *)
Fixpoint update_from_paths (self : Loader) (data : gmap string slot)
    (paths : list string) : M (gmap string slot) :=
  match paths with
  | [] => ret data
  | path :: rest =>
      do other <- _GetData self path;
      do data <- lift (dict_update data other);
      update_from_paths self data rest
  end.

(** [Loader.construct_mapping], lines 249-255, applied to the [data] that
    [super().construct_mapping] returns.  [data.pop(MERGE_MACRO, None)]
    gives [None] without the key; a text has the method [split], any
    other truthy object raises. *)
Definition construct_mapping (self : Loader) (data : gmap string slot)
    : M (gmap string slot) :=
  let attribute_path := default (Complete VNone) (data !! MERGE_MACRO) in
  let data := delete MERGE_MACRO data in
  if slot_truthy attribute_path then
    match completed attribute_path with
    | VStr s => update_from_paths self data (split "," s)
    | v => raise (AttributeError
                    ("'" +:+ type_name v
                       +:+ "' object has no attribute 'split'"))
    end
  else ret data.

(** [for path in attribute_path.split(','): new_list.extend(self._GetData(path))] *)
Fixpoint extend_from_paths (self : Loader) (new_list : list slot)
    (paths : list string) : M (list slot) :=
  match paths with
  | [] => ret new_list
  | path :: rest =>
      do other <- _GetData self path;
      do new_list <- lift (list_extend new_list other);
      extend_from_paths self new_list rest
  end.

(** [isinstance(i, basestring) and i.startswith(Loader.MERGE_MACRO)] *)
Definition is_merge_item (i : slot) : bool :=
  match i with
  | Complete (VStr s) => String.prefix MERGE_MACRO s
  | _ => false
  end.

(** The loop of [Loader.construct_sequence], lines 260-266. *)
Fixpoint merge_items (self : Loader) (new_list : list slot)
    (data : list slot) : M (list slot) :=
  match data with
  | [] => ret new_list
  | i :: rest =>
      match i with
      | Complete (VStr s) =>
          if String.prefix MERGE_MACRO s then
            let attribute_path := string_drop (String.length MERGE_MACRO) s in
            do new_list <- extend_from_paths self new_list
                             (split "," attribute_path);
            merge_items self new_list rest
          else merge_items self (new_list ++ [i]) rest
      | _ => merge_items self (new_list ++ [i]) rest
      end
  end.

(** [Loader.construct_sequence], applied to the [data] that
    [super().construct_sequence] returns. *)
Definition construct_sequence (self : Loader) (data : list slot)
    : M (list slot) :=
  merge_items self [] data.

(** The loader that [CreateYamlLoader] returns: [include] is registered
    for the tag [!COMMON] (line 288), and the class overrides
    [construct_sequence] and [construct_mapping]. *)
Definition Loader_construct_object (self : Loader) (n : node) : M object :=
  construct_document (include self) (construct_sequence self)
                     (construct_mapping self) n.

(** ** Reading the files *)

(** The calls the loader makes to the file system, to the engine and to
    the importer of modules. *)
Inductive io_event :=
  | CallExists (path : string)
  | CallGetData (path : string)
  | CallYamlLoad (text : string)
  | CallGetModuleFromPath (name_to_give : string) (impl_file : string).

#[global] Instance io_event_eq_dec : EqDecision io_event.
Proof. solve_decision. Defined.

Abbreviation IO := (W io_event).

Section files.
(** The composer of the engine (text to nodes) and the files of the
    package, by path. *)
Variable compose : string → result node.
Variable files : gmap string string.

(** [os.path.exists(path)] *)
Definition path_exists (path : string) : IO bool :=
  ([CallExists path], Ok (bool_decide (is_Some (files !! path)))).

(** [pkg_resources.GetData(path)] *)
Definition GetData (path : string) : IO string :=
  ([CallGetData path],
   match files !! path with
   | Some text => Ok text
   | None => Raise (IOError path)
   end).

(** [yaml.load(text)] *)
Definition yaml_load (text : string) : IO object :=
  ([CallYamlLoad text],
   match compose text with
   | Ok n => construct_object n
   | Raise e => Raise e
   end).

(** [yaml.load(text, Loader=loader)] *)
Definition yaml_load_with (loader : Loader) (text : string) : IO object :=
  ([CallYamlLoad text],
   match compose text with
   | Ok n => (Loader_construct_object loader n).2
   | Raise e => Raise e
   end).

Definition CreateYamlLoader (impl_path : string) : IO Loader :=
  let common_file_path :=
    os_path_join (os_path_dirname impl_path) "__init__.yaml" in
  do found <- path_exists common_file_path;
  do common_data <-
    (if found : bool then
       do text <- GetData common_file_path;
       yaml_load text
     else ret VNone);
  ret {| impl_path := impl_path; common_data := common_data |}.

(** The loading of one command file by [LoadCommonType], lines 161-162:
    [yaml.load(pkg_resources.GetData(impl_file),
               Loader=CreateYamlLoader(impl_file))]. *)
Definition load_command_data (impl_file : string) : IO object :=
  do text <- GetData impl_file;
  do loader <- CreateYamlLoader impl_file;
  yaml_load_with loader text.

(** A loading session: the command files that one CLI loader loads, one
    call of [LoadCommonType] after the other. *)
Fixpoint loading_session (impl_files : list string) : IO (list object) :=
  match impl_files with
  | [] => ret []
  | impl_file :: rest =>
      do data <- load_command_data impl_file;
      do datas <- loading_session rest;
      ret (data :: datas)
  end.

End files.

(** How many times a session read, and parsed, a file. *)
Definition reads_of (path : string) (calls : list io_event) : nat :=
  length (filter (λ c, c = CallGetData path) calls).

Definition parses_of (text : string) (calls : list io_event) : nat :=
  length (filter (λ c, c = CallYamlLoad text) calls).

(** ** Markers *)

(** A node is a merge marker of a sequence when it is a text scalar that
    begins with [_COMMON_]. *)
Definition is_merge_marker (n : node) : bool :=
  match n with
  | ScalarNode (SStr s) => String.prefix MERGE_MACRO s
  | _ => false
  end.

(** A document without markers: no scalar tagged [!COMMON], no mapping
    key [_COMMON_], no sequence item that is a merge marker. *)
Fixpoint no_markers (n : node) : bool :=
  match n with
  | ScalarNode _ => true
  | IncludeNode _ => false
  | SequenceNode items =>
      forallb (λ child, negb (is_merge_marker child) && no_markers child)
              items
  | MappingNode pairs =>
      forallb (λ pair, negb (String.eqb pair.1 MERGE_MACRO)
                       && no_markers pair.2)
              pairs
  end.

(** The object that a sequence of keys reaches from [value], each key
    looked up in a mapping and found with a truthy object. *)
Fixpoint descend (value : object) (attributes : list string)
    : option object :=
  match attributes with
  | [] => Some value
  | attribute :: rest =>
      match value with
      | VDict m =>
          match m !! attribute with
          | Some value' =>
              if truthy value' then descend value' rest else None
          | None => None
          end
      | _ => None
      end
  end.

(** A computation of the loader propagates the failures of [_GetData]:
    when one of the calls it made raised, it raised the same exception. *)
Definition propagates {A} (self : Loader) (m : M A) : Prop :=
  ∀ attribute_path e,
    attribute_path ∈ m.1 →
    _GetData_result self attribute_path = Raise e →
    m.2 = Raise e.

(** ** Discovery of the elements of a group *)

(** [re.search('[A-Z]', name)] *)
Definition is_capital (c : Ascii.ascii) : bool :=
  (65 <=? Ascii.nat_of_ascii c)%nat && (Ascii.nat_of_ascii c <=? 90)%nat.

Definition has_capital (name : string) : bool :=
  existsb is_capital (String.list_ascii_of_string name).

(** [s.endswith(suffix)] *)
Definition endswith (suffix s : string) : bool :=
  (String.length suffix <=? String.length s)%nat
  && String.eqb (string_drop (String.length s - String.length suffix) s)
                suffix.

(** [name[:-5] if name.endswith('.yaml') else name] *)
Definition cli_name_of (name : string) : string :=
  if endswith ".yaml" name
  then String.substring 0 (String.length name - 5) name
  else name.

Definition capital_letters_msg (name : string) : string :=
  "Commands and groups cannot have capital letters: " +:+ name +:+ ".".

(** The loop of [_GenerateElementInfo], lines 118-126, on the dictionary
    [elements]: [setdefault(cli_name, [])] followed by [append]. *)
Fixpoint generate_elements (impl_path : string)
    (elements : gmap string (list string)) (names : list string)
    : result (gmap string (list string)) :=
  match names with
  | [] => Ok elements
  | name :: rest =>
      if has_capital name then
        Raise (LayoutException (capital_letters_msg name))
      else
        let cli_name := cli_name_of name in
        let sub_path := os_path_join impl_path name in
        let existing := default [] (elements !! cli_name) in
        generate_elements impl_path
          (<[cli_name := existing ++ [sub_path]]> elements) rest
  end.

Definition _GenerateElementInfo (impl_path : string) (names : list string)
    : result (gmap string (list string)) :=
  generate_elements impl_path ∅ names.

Definition groups_in_yaml_msg : string :=
  "Command groups cannot be implemented in yaml".

(** [FindSubElements].  [pkg_resources.ListPackage(impl_path,
    extra_extensions=['.yaml'])] is declared outside this file: it is the
    parameter [ListPackage], which gives the names of the groups and of
    the commands of a directory.  [impl_paths[0]] raises [IndexError] on
    an empty list, an exception that [exception] does not list: [None]
    stands for it. *)
Definition FindSubElements
    (ListPackage : string → list string * list string)
    (impl_paths : list string) (path : list string)
    : option (result (gmap string (list string)
                      * gmap string (list string))) :=
  if bool_decide (1 < length impl_paths) then
    Some (Raise (CommandLoadFailure (join "." path) groups_in_yaml_msg))
  else
    match impl_paths with
    | [] => None
    | impl_path :: _ =>
        let '(groups, commands) := ListPackage impl_path in
        Some
          match _GenerateElementInfo impl_path groups with
          | Raise e => Raise e
          | Ok group_info =>
              match _GenerateElementInfo impl_path commands with
              | Raise e => Raise e
              | Ok command_info => Ok (group_info, command_info)
              end
          end
    end.

(** ** Loading a command or a group *)

(** [s.replace('-', '_')] *)
Fixpoint replace_dash (s : string) : string :=
  match s with
  | "" => ""
  | String c s' =>
      String (if Ascii.eqb c "-"%char then "_"%char else c) (replace_dash s')
  end.

(** The name under which [_GetModuleFromPath] imports a module. *)
Definition name_to_give (construction_id : string) (path : list string)
    : string :=
  "__calliope__command__." +:+ construction_id +:+ "."
    +:+ replace_dash (join "." path).

(** The calls of the importer on the implementation paths that are not
    [.yaml] files. *)
Definition imports_of (impl_paths path : list string)
    (construction_id : string) (call : io_event) : Prop :=
  ∃ impl_file,
    impl_file ∈ impl_paths ∧ endswith ".yaml" impl_file = false
    ∧ call = CallGetModuleFromPath (name_to_give construction_id path)
                                   impl_file.

(** Iteration over an object ([for x in value]): the elements of a list,
    the characters of a string, the keys of a mapping (in the order of
    its enumeration, which Python leaves unspecified). *)
Definition py_iter (value : object) : result (list object) :=
  match value with
  | VList l => Ok l
  | VStr s => Ok (characters s)
  | VDict m => Ok (VStr <$> (map_to_list m).*1)
  | _ => Raise (TypeError ("'" +:+ type_name value
                             +:+ "' object is not iterable"))
  end.

Section loading.
Context `{Countable ReleaseTrack}.
Variable track_id : ReleaseTrack → string.
Variable track_str : ReleaseTrack → string.
Variable set_iter : gset ReleaseTrack → list ReleaseTrack.

(** Declared outside this file: [base.ReleaseTrack.FromId], which raises
    on an identifier it does not know, and
    [pkg_resources.GetModuleFromPath(name, impl_file)], which runs the
    module and gives its [__file__] and its [__dict__.values()], or raises
    what the module raised. *)
Variable FromId : object → result ReleaseTrack.
Variable GetModuleFromPath :
  string → string → result (string * list (module_attribute ReleaseTrack)).

(** The composer of the engine and the files of the package, as in
    [load_command_data]. *)
Variable compose : string → result node.
Variable files : gmap string string.

(** [YamlCommandTranslator.Translate(path, command_data)], which returns
    a command class. *)
Local Abbreviation translator_type :=
  (list string → object → result (pyclass ReleaseTrack)).

(** The producers of the implementations: [lambda c=c: c] for a class of
    a module, and [lambda i=i: yaml_command_translator.Translate(path, i)]
    for an entry of a command file. *)
Inductive producer :=
  | ReturnClass (c : pyclass ReleaseTrack)
  | TranslateEntry (i : object).

(** The call of a producer, the final [()] of [LoadCommonType]. *)
Definition call_producer (translator : option translator_type)
    (path : list string) (impl : producer)
    : result (pyclass ReleaseTrack) :=
  match impl with
  | ReturnClass c => Ok c
  | TranslateEntry i =>
      match translator with
      | Some translate => translate path i
      | None => Raise (AttributeError
                         "'NoneType' object has no attribute 'Translate'")
      end
  end.

(** [_GetModuleFromPath]: what the import raises is caught by
    [except Exception] and raised again as a [CommandLoadFailure]; an
    exception that does not derive from [Exception] goes through. *)
Definition _GetModuleFromPath (impl_file : string) (path : list string)
    (construction_id : string)
    : IO (string * list (module_attribute ReleaseTrack)) :=
  let name_to_give := name_to_give construction_id path in
  ([CallGetModuleFromPath name_to_give impl_file],
   match GetModuleFromPath name_to_give impl_file with
   | Ok module => Ok module
   | Raise e =>
       if is_Exception e
       then Raise (CommandLoadFailure (join "." path) (exception_str e))
       else Raise e
   end).

(** [{base.ReleaseTrack.FromId(t) for t in ...}] *)
Fixpoint tracks_from_ids (ids : list object) : result (gset ReleaseTrack) :=
  match ids with
  | [] => Ok ∅
  | t :: rest =>
      match FromId t with
      | Raise e => Raise e
      | Ok track =>
          match tracks_from_ids rest with
          | Raise e => Raise e
          | Ok tracks => Ok ({[track]} ∪ tracks)
          end
      end
  end.

(** The track set of an entry [i]: [i.get('release_tracks', [])], where
    [get] exists on a [dict] only. *)
Definition entry_tracks (i : object) : result (gset ReleaseTrack) :=
  match i with
  | VDict m =>
      match py_iter (default (VList []) (m !! "release_tracks")) with
      | Raise e => Raise e
      | Ok ids => tracks_from_ids ids
      end
  | _ => Raise (AttributeError
                  ("'" +:+ type_name i +:+ "' object has no attribute 'get'"))
  end.

(** The list comprehension of [_ImplementationsFromYaml], lines 417-420. *)
Fixpoint implementations_of_entries (entries : list object)
    : result (list (producer * gset ReleaseTrack)) :=
  match entries with
  | [] => Ok []
  | i :: rest =>
      match entry_tracks i with
      | Raise e => Raise e
      | Ok tracks =>
          match implementations_of_entries rest with
          | Raise e => Raise e
          | Ok implementations => Ok ((TranslateEntry i, tracks)
                                        :: implementations)
          end
      end
  end.

Definition no_translator_msg : string :=
  "No yaml command translator has been registered".

Definition _ImplementationsFromYaml (path : list string) (data : object)
    (yaml_command_translator : option translator_type)
    : result (list (producer * gset ReleaseTrack)) :=
  match yaml_command_translator with
  | None => Raise (CommandLoadFailure (join "." path) no_translator_msg)
  | Some _ =>
      match py_iter data with
      | Raise e => Raise e
      | Ok entries => implementations_of_entries entries
      end
  end.

(** The loop of [LoadCommonType], lines 154-168. *)
Fixpoint load_implementations (path : list string)
    (construction_id : string) (is_command : bool)
    (yaml_command_translator : option translator_type)
    (implementations : list (producer * gset ReleaseTrack))
    (impl_paths : list string)
    : IO (list (producer * gset ReleaseTrack)) :=
  match impl_paths with
  | [] => ret implementations
  | impl_file :: rest =>
      if endswith ".yaml" impl_file then
        if negb is_command then
          raise (CommandLoadFailure (join "." path) groups_in_yaml_msg)
        else
          do data <- load_command_data compose files impl_file;
          do found <- lift (_ImplementationsFromYaml path data
                              yaml_command_translator);
          load_implementations path construction_id is_command
            yaml_command_translator (implementations ++ found) rest
      else
        do module <- _GetModuleFromPath impl_file path construction_id;
        do found <- lift (_ImplementationsFromModule module.1 module.2
                            is_command);
        load_implementations path construction_id is_command
          yaml_command_translator
          (implementations ++ (prod_map ReturnClass id <$> found)) rest
  end.

(** [LoadCommonType].  As in [FindSubElements], [None] stands for the
    [IndexError] of [impl_paths[0]] on an empty list. *)
Definition LoadCommonType (impl_paths : list string) (path : list string)
    (release_track : ReleaseTrack) (construction_id : string)
    (is_command : bool) (yaml_command_translator : option translator_type)
    : option (IO (pyclass ReleaseTrack)) :=
  match impl_paths with
  | [] => None
  | impl_file :: _ =>
      Some
        (do implementations <-
           load_implementations path construction_id is_command
             yaml_command_translator [] impl_paths;
         do impl <- lift (_ExtractReleaseTrackImplementation track_id
                            track_str set_iter impl_file release_track
                            implementations);
         lift (call_producer yaml_command_translator path impl))
  end.

End loading.
Arguments producer ReleaseTrack {_ _}.

(** ** Data for the examples *)

(** Three release tracks, with their identifiers. *)
Inductive example_track := ALPHA | BETA | GA.

#[global] Instance example_track_eq_dec : EqDecision example_track.
Proof. solve_decision. Defined.

#[global] Instance example_track_countable : Countable example_track.
Proof.
  refine (inj_countable'
    (λ t, match t with ALPHA => 0 | BETA => 1 | GA => 2 end)
    (λ n, match n with 0 => ALPHA | 1 => BETA | _ => GA end) _).
  intros []; reflexivity.
Defined.

Definition example_id (t : example_track) : string :=
  match t with ALPHA => "ALPHA" | BETA => "BETA" | GA => "GA" end.

(** The common data of the docstring of [Loader], and a loader over it. *)
Definition example_common_data : object :=
  VDict {[ "foo" := VDict {[ "a" := VStr "b"; "c" := VStr "d" ]};
           "baz" := VList [VDict {[ "e" := VStr "f" ]};
                           VDict {[ "g" := VStr "h" ]}] ]}.

Definition example_loader : Loader :=
  {| impl_path := "surface/compute/list.yaml";
     common_data := example_common_data |}.

(** A loader for a directory that has no [__init__.yaml]. *)
Definition orphan_loader : Loader :=
  {| impl_path := "surface/compute/list.yaml"; common_data := VNone |}.

(** A package with two command files and the common data of their
    directory, and a composer for the three texts. *)
Definition example_files : gmap string string :=
  {[ "surface/compute/__init__.yaml" := "foo: {a: b, c: d}";
     "surface/compute/list.yaml" := "- {_COMMON_: foo, i: j}";
     "surface/compute/describe.yaml" := "- {bar: !COMMON foo.a}" ]}.

Definition example_compose (text : string) : result node :=
  if String.eqb text "foo: {a: b, c: d}" then
    Ok (MappingNode [("foo", MappingNode [("a", ScalarNode (SStr "b"));
                                          ("c", ScalarNode (SStr "d"))])])
  else if String.eqb text "- {_COMMON_: foo, i: j}" then
    Ok (SequenceNode [MappingNode [("_COMMON_", ScalarNode (SStr "foo"));
                                   ("i", ScalarNode (SStr "j"))]])
  else if String.eqb text "- {bar: !COMMON foo.a}" then
    Ok (SequenceNode [MappingNode [("bar", IncludeNode "foo.a")]])
  else Raise (YAMLError "could not compose the document").

(** A package directory as [ListPackage] gives it, a module with one
    command class, an importer that knows this module only, and a
    translator that makes one command class of every entry. *)
Definition example_ListPackage (impl_path : string)
    : list string * list string :=
  (["instances"], ["list"; "list.yaml"; "describe.yaml"]).

Definition example_List : pyclass example_track :=
  {| __name__ := "List"; issubclass_Command := true;
     issubclass_Group := false; ValidReleaseTracks := {[GA]} |}.

Definition example_GetModuleFromPath (name impl_file : string)
    : result (string * list (module_attribute example_track)) :=
  if String.eqb impl_file "surface/compute/list.py" then
    Ok ("surface/compute/list.pyc", [OtherObject; TypeObject example_List])
  else if String.eqb impl_file "surface/compute/exit.py" then
    Raise (SystemExit "1")
  else Raise (ImportError ("No module named " +:+ name)).

Definition example_FromId (t : object) : result example_track :=
  match t with
  | VStr s =>
      if String.eqb s "ALPHA" then Ok ALPHA
      else if String.eqb s "BETA" then Ok BETA
      else if String.eqb s "GA" then Ok GA
      else Raise (TypeError "Unknown release track")
  | _ => Raise (TypeError "Unknown release track")
  end.

Definition example_translate (path : list string) (i : object)
    : result (pyclass example_track) :=
  Ok {| __name__ := join "." path; issubclass_Command := true;
        issubclass_Group := false; ValidReleaseTracks := ∅ |}.

(** * Properties *)

(** ** Text and paths *)

Example text_and_path_examples :
  os_path_dirname "surface/compute/list.yaml" = "surface/compute"
  ∧ os_path_dirname "list.yaml" = ""
  ∧ os_path_dirname "/list.yaml" = "/"
  ∧ os_path_dirname "a//b" = "a"
  ∧ os_path_join "surface/compute" "__init__.yaml"
    = "surface/compute/__init__.yaml"
  ∧ os_path_join "" "__init__.yaml" = "__init__.yaml"
  ∧ split "," "a,b," = ["a"; "b"; ""]
  ∧ split "." "" = [""]
  ∧ contains "foo.a" "path [foo.a] but" = true.
Proof. repeat split; reflexivity. Qed.

(** ** The release-track resolver *)

Section resolver_properties.
Context `{Countable ReleaseTrack}.
Variable track_id : ReleaseTrack → string.
Variable track_str : ReleaseTrack → string.
Variable set_iter : gset ReleaseTrack → list ReleaseTrack.
Context {Impl : Type}.
Local Abbreviation implementation := (Impl * gset ReleaseTrack)%type.
Implicit Types implementations : list implementation.
Implicit Types t expected_track : ReleaseTrack.

Local Abbreviation resolve :=
  (_ExtractReleaseTrackImplementation (Impl:=Impl) track_id track_str set_iter).

Lemma pairwise_disjoint_cons (c : implementation) implementations :
  pairwise_disjoint (c :: implementations) ↔
  (∀ c', c' ∈ implementations → c.2 ## c'.2)
  ∧ pairwise_disjoint implementations.
Proof.
  unfold pairwise_disjoint. split.
  - intros Hd. split.
    + intros c' [j Hj]%list_elem_of_lookup.
      apply (Hd 0 (S j)); [lia | done | done].
    + intros i j ci cj Hij Hi Hj. apply (Hd (S i) (S j)); [lia | done | done].
  - intros [Hc Hd] [|i] [|j] ci cj Hij Hi Hj; simpl in *; simplify_eq.
    + apply Hc. by eapply list_elem_of_lookup_2.
    + symmetry. apply Hc. by eapply list_elem_of_lookup_2.
    + apply (Hd i j); [lia | done | done].
Qed.

Lemma check_conflicts_ok impl_file (implemented : gset ReleaseTrack)
    implementations :
  Forall (λ c : implementation, c.2 ≠ ∅) implementations →
  (∀ c, c ∈ implementations → c.2 ## implemented) →
  pairwise_disjoint implementations →
  check_conflicts track_str set_iter impl_file implemented implementations = Ok tt.
Proof.
  intros Hne. revert implemented.
  induction Hne as [|[impl vt] l Hvt _ IH]; intros implemented Hacc Hd.
  - reflexivity.
  - apply pairwise_disjoint_cons in Hd as [Hc Hd]. simpl in *.
    rewrite bool_decide_eq_false_2 by done.
    assert (vt ## implemented) as Hvt'
      by (apply (Hacc (impl, vt)); left).
    rewrite bool_decide_eq_true_2 by set_solver.
    apply IH; [|done].
    intros c Hin. specialize (Hc c Hin). specialize (Hacc c).
    assert (c.2 ## implemented) by (apply Hacc; by right).
    set_solver.
Qed.

Lemma claims_cons t (c : implementation) implementations :
  claims t (c :: implementations)
  = (if decide (t ∈ c.2) then 1 else 0) + claims t implementations.
Proof.
  unfold claims. rewrite filter_cons. by destruct (decide (t ∈ c.2)).
Qed.

Lemma claims_zero t implementations :
  (∀ c, c ∈ implementations → t ∉ c.2) → claims t implementations = 0.
Proof.
  induction implementations as [|c l IH]; intros Hn; [done|].
  rewrite claims_cons, IH.
  - rewrite decide_False; [done|]. apply Hn. left.
  - intros c' Hc'. apply Hn. by right.
Qed.


(** With pairwise disjoint track sets, the filter on the requested track
    keeps exactly the candidate that claims it. *)
Lemma filter_unique_candidate expected_track implementations i
    (c : implementation) :
  pairwise_disjoint implementations →
  implementations !! i = Some c → expected_track ∈ c.2 →
  filter (λ c : implementation, expected_track ∈ c.2) implementations = [c]
  ∧ ∀ j c', implementations !! j = Some c' → expected_track ∈ c'.2 → j = i.
Proof.
  revert i. induction implementations as [|c0 l IH]; intros i Hd Hi Ht;
    [done|].
  apply pairwise_disjoint_cons in Hd as [Hc Hd].
  assert (Hfilter : ∀ l' : list implementation,
             (∀ c', c' ∈ l' → expected_track ∉ c'.2) →
             filter (λ c : implementation, expected_track ∈ c.2) l' = []).
  { intros l' Hl'. apply length_zero_iff_nil. by apply claims_zero. }
  destruct i as [|i]; simpl in Hi.
  - simplify_eq. rewrite filter_cons_True by done.
    assert (Hrest : ∀ c', c' ∈ l → expected_track ∉ c'.2).
    { intros c' Hc' Hin. specialize (Hc c' Hc'). set_solver. }
    split; [by rewrite Hfilter|].
    intros [|j] c' Hj Hin; [done|]. simpl in Hj.
    exfalso. eapply Hrest; [by eapply list_elem_of_lookup_2 | done].
  - assert (expected_track ∉ c0.2) as Hc0.
    { intros Hin. assert (c0.2 ## c.2) as Hdisj
        by (apply Hc; by eapply list_elem_of_lookup_2).
      set_solver. }
    rewrite filter_cons_False by done.
    destruct (IH i Hd Hi Ht) as [Hf Hu]. split; [done|].
    intros [|j] c' Hj Hin; simpl in Hj; simplify_eq; [done|].
    f_equal. by eapply Hu.
Qed.

(** A list that is not a singleton goes through the conflict check and
    the filter. *)
Lemma resolve_multi impl_file expected_track implementations :
  length implementations ≠ 1 →
  resolve impl_file expected_track implementations =
    match check_conflicts track_str set_iter impl_file ∅ implementations with
    | Raise e => Raise e
    | Ok _ =>
        match (filter (λ c : implementation, expected_track ∈ c.2)
                      implementations).*1 with
        | [impl] => Ok impl
        | _ => Raise (ReleaseTrackNotImplementedException
                        (not_implemented_msg track_id expected_track
                                             impl_file))
        end
    end.
Proof. destruct implementations as [|[??] [|??]]; done. Qed.


(** C1.  A list of exactly one candidate resolves to the candidate's
    producer when its track set is empty (the wildcard) or contains the
    requested track; otherwise the resolver raises
    [ReleaseTrackNotImplementedException], with a message that names the
    identifier of the requested track and the source location. *)
Theorem resolve_single_candidate (impl_file : string) expected_track
    (impl : Impl) (valid_tracks : gset ReleaseTrack) :
  (valid_tracks = ∅ ∨ expected_track ∈ valid_tracks →
   _ExtractReleaseTrackImplementation track_id track_str set_iter impl_file
     expected_track [(impl, valid_tracks)] = Ok impl)
  ∧ (valid_tracks ≠ ∅ → expected_track ∉ valid_tracks →
     _ExtractReleaseTrackImplementation track_id track_str set_iter impl_file
     expected_track [(impl, valid_tracks)]
     = Raise (ReleaseTrackNotImplementedException
                ("No implementation for release track ["
                   +:+ track_id expected_track
                   +:+ "] for element: [" +:+ impl_file +:+ "]"))).
Proof.
  split.
  - intros Hv. simpl.
    destruct Hv as [->|Hin].
    + by rewrite bool_decide_eq_true_2.
    + rewrite (bool_decide_eq_true_2 (expected_track ∈ valid_tracks)) by done.
      by rewrite orb_true_r.
  - intros Hne Hnin. simpl.
    by rewrite !bool_decide_eq_false_2.
Qed.

(** C2.  For a list of more than one candidate, each with a non-empty
    track set, the sets pairwise disjoint: the resolver returns the
    producer of the candidate whose track set contains the requested track,
    that candidate is the only one to contain it, and when no candidate
    contains it the resolver raises [ReleaseTrackNotImplementedException]. *)
Theorem resolve_disjoint_candidates (impl_file : string) expected_track
    implementations :
  1 < length implementations →
  Forall (λ c : implementation, c.2 ≠ ∅) implementations →
  pairwise_disjoint implementations →
  (∀ i impl valid_tracks,
     implementations !! i = Some (impl, valid_tracks) →
     expected_track ∈ valid_tracks →
     _ExtractReleaseTrackImplementation track_id track_str set_iter impl_file
       expected_track implementations = Ok impl
     ∧ ∀ j c, implementations !! j = Some c → expected_track ∈ c.2 → j = i)
  ∧ ((∀ c, c ∈ implementations → expected_track ∉ c.2) →
     _ExtractReleaseTrackImplementation track_id track_str set_iter impl_file
       expected_track implementations
     = Raise (ReleaseTrackNotImplementedException
                (not_implemented_msg track_id expected_track impl_file))).
Proof.
  intros Hlen Hne Hd.
  assert (Hcheck : check_conflicts track_str set_iter impl_file ∅ implementations
                   = Ok tt).
  { apply check_conflicts_ok; [done | set_solver | done]. }
  split.
  - intros i impl vt Hi Ht.
    destruct (filter_unique_candidate expected_track implementations i
                (impl, vt) Hd Hi Ht) as [Hf Hu].
    split; [|done].
    rewrite resolve_multi by lia. by rewrite Hcheck, Hf.
  - intros Hnone. rewrite resolve_multi by lia. rewrite Hcheck.
    assert (filter (λ c : implementation, expected_track ∈ c.2)
                   implementations = []) as ->
      by (apply length_zero_iff_nil; by apply claims_zero).
    done.
Qed.


End resolver_properties.

Lemma resolve_single_candidate_witness :
  _ExtractReleaseTrackImplementation example_id example_id elements
    "surface/compute/list.py" GA [(7, ∅)] = Ok 7
  ∧ _ExtractReleaseTrackImplementation example_id example_id elements
      "surface/compute/list.py" GA [(7, {[ALPHA; BETA]})]
    = Raise (ReleaseTrackNotImplementedException
        "No implementation for release track [GA] for element: [surface/compute/list.py]").
Proof.
  split.
  - apply (proj1 (resolve_single_candidate example_id example_id elements
                    "surface/compute/list.py" GA 7 ∅)).
    left. reflexivity.
  - apply (proj2 (resolve_single_candidate example_id example_id elements
                    "surface/compute/list.py" GA 7 {[ALPHA; BETA]})).
    + intros Heq. assert (ALPHA ∈ (∅ : gset example_track)) as Hin
        by (rewrite <- Heq; set_solver).
      set_solver.
    + set_solver.
Defined.

Lemma resolve_disjoint_candidates_witness :
  _ExtractReleaseTrackImplementation example_id example_id elements
    "surface/compute/list.py" BETA [(1, {[ALPHA]}); (2, {[BETA; GA]})]
  = Ok 2.
Proof.
  refine (proj1 (proj1 (resolve_disjoint_candidates example_id example_id elements
    "surface/compute/list.py" BETA [(1, {[ALPHA]}); (2, {[BETA; GA]})]
    _ _ _) 1 2 {[BETA; GA]} _ _)).
  - simpl. lia.
  - repeat constructor; simpl; intros Heq.
    + assert (ALPHA ∈ (∅ : gset example_track)) as Hin
        by (rewrite <- Heq; set_solver).
      set_solver.
    + assert (BETA ∈ (∅ : gset example_track)) as Hin
        by (rewrite <- Heq; set_solver).
      set_solver.
  - intros [|[|i]] [|[|j]] ci cj Hij Hi Hj; simpl in *; simplify_eq;
      simpl; set_solver.
  - reflexivity.
  - set_solver.
Defined.


(** ** Inspection of a native module *)

Section module_properties.
Context `{Countable ReleaseTrack}.
Implicit Types module_attributes : list (module_attribute ReleaseTrack).
Implicit Types commands groups : list (pyclass ReleaseTrack).

(** The lists the collecting loop builds: the tagged attributes, in the
    order of the module. *)
Lemma collect_tagged module_attributes commands groups :
  TypeObject <$> (collect module_attributes commands groups).1
  = (TypeObject <$> commands)
    ++ filter (λ a, command_tagged a = true) module_attributes
  ∧ TypeObject <$> (collect module_attributes commands groups).2
    = (TypeObject <$> groups)
      ++ filter (λ a, group_tagged a = true) module_attributes.
Proof.
  revert commands groups.
  induction module_attributes as [|[c0|] l IH]; intros commands groups.
  - simpl. by rewrite !app_nil_r.
  - simpl collect. rewrite !filter_cons. simpl.
    destruct (issubclass_Command c0) eqn:Hc;
      [|destruct (issubclass_Group c0) eqn:Hg]; simpl.
    + destruct (IH (commands ++ [c0]) groups) as [-> ->].
      by rewrite fmap_app, <- app_assoc.
    + destruct (IH commands (groups ++ [c0])) as [-> ->].
      by rewrite fmap_app, <- app_assoc.
    + by destruct (IH commands groups) as [-> ->].
  - simpl collect. rewrite !filter_cons. simpl.
    by destruct (IH commands groups) as [-> ->].
Qed.

Lemma collect_groups_nonempty module_attributes a :
  a ∈ module_attributes → group_tagged a = true →
  (collect module_attributes [] []).2 ≠ [].
Proof.
  intros Hin Ht Heq.
  pose proof (proj2 (collect_tagged module_attributes [] [])) as Hg.
  rewrite Heq in Hg. simpl in Hg.
  assert (a ∈ filter (λ a, group_tagged a = true) module_attributes) as Ha
    by (by apply list_elem_of_filter).
  rewrite <- Hg in Ha. by apply not_elem_of_nil in Ha.
Qed.

Lemma collect_commands_nonempty module_attributes a :
  a ∈ module_attributes → command_tagged a = true →
  (collect module_attributes [] []).1 ≠ [].
Proof.
  intros Hin Ht Heq.
  pose proof (proj1 (collect_tagged module_attributes [] [])) as Hc.
  rewrite Heq in Hc. simpl in Hc.
  assert (a ∈ filter (λ a, command_tagged a = true) module_attributes) as Ha
    by (by apply list_elem_of_filter).
  rewrite <- Hc in Ha. by apply not_elem_of_nil in Ha.
Qed.

Lemma filter_none {A} (P : A → Prop) `{∀ x, Decision (P x)} (l : list A) :
  (∀ x, x ∈ l → ¬ P x) → filter P l = [].
Proof.
  induction l as [|x l IH]; intros Hn; [done|].
  rewrite filter_cons_False by (apply Hn; left).
  apply IH. intros y Hy. apply Hn. by right.
Qed.

Lemma collect_commands_empty module_attributes :
  (∀ a, a ∈ module_attributes → command_tagged a = false) →
  (collect module_attributes [] []).1 = [].
Proof.
  intros Hnone.
  pose proof (proj1 (collect_tagged module_attributes [] [])) as Hc.
  rewrite filter_none in Hc.
  - simpl in Hc. by apply fmap_nil_inv in Hc.
  - intros a Ha. rewrite (Hnone a Ha). done.
Qed.

Lemma collect_groups_empty module_attributes :
  (∀ a, a ∈ module_attributes → group_tagged a = false) →
  (collect module_attributes [] []).2 = [].
Proof.
  intros Hnone.
  pose proof (proj2 (collect_tagged module_attributes [] [])) as Hg.
  rewrite filter_none in Hg.
  - simpl in Hg. by apply fmap_nil_inv in Hg.
  - intros a Ha. rewrite (Hnone a Ha). done.
Qed.

(** C8.  Loading the implementations of a module as a command raises a
    [LayoutException] when the module defines a group-tagged type, and
    when it defines no command-tagged type; loading them as a group raises
    a [LayoutException] when the module defines a command-tagged type, and
    when it defines no group-tagged type.  The tags are those of the
    collecting loop: a subclass of [base.Command] is command-tagged, a
    subclass of [base.Group] that is not one of [base.Command] is
    group-tagged. *)
Theorem module_kind_is_checked (mod_file : string) module_attributes :
  ((∃ a, a ∈ module_attributes ∧ group_tagged a = true) →
   is_LayoutException
     (_ImplementationsFromModule mod_file module_attributes true) = true)
  ∧ ((∀ a, a ∈ module_attributes → command_tagged a = false) →
     is_LayoutException
       (_ImplementationsFromModule mod_file module_attributes true) = true)
  ∧ ((∃ a, a ∈ module_attributes ∧ command_tagged a = true) →
     is_LayoutException
       (_ImplementationsFromModule mod_file module_attributes false) = true)
  ∧ ((∀ a, a ∈ module_attributes → group_tagged a = false) →
     is_LayoutException
       (_ImplementationsFromModule mod_file module_attributes false) = true).
Proof.
  unfold _ImplementationsFromModule.
  repeat split.
  - intros (a & Hin & Ht).
    pose proof (collect_groups_nonempty _ _ Hin Ht) as Hg.
    destruct (collect module_attributes [] []) as [commands groups].
    simpl in Hg. by rewrite bool_decide_eq_true_2.
  - intros Hnone. pose proof (collect_commands_empty _ Hnone) as Hc.
    destruct (collect module_attributes [] []) as [commands groups].
    simpl in Hc. subst. by case_bool_decide.
  - intros (a & Hin & Ht).
    pose proof (collect_commands_nonempty _ _ Hin Ht) as Hc.
    destruct (collect module_attributes [] []) as [commands groups].
    simpl in Hc. by rewrite bool_decide_eq_true_2.
  - intros Hnone. pose proof (collect_groups_empty _ Hnone) as Hg.
    destruct (collect module_attributes [] []) as [commands groups].
    simpl in Hg. subst. by case_bool_decide.
Qed.

End module_properties.

Lemma module_kind_is_checked_witness :
  is_LayoutException
    (_ImplementationsFromModule "surface/compute/list.py"
       [OtherObject;
        TypeObject {| __name__ := "Compute"; issubclass_Command := false;
                      issubclass_Group := true;
                      ValidReleaseTracks := {[GA]} |}]
       true) = true.
Proof.
  apply (proj1 (module_kind_is_checked "surface/compute/list.py" _)).
  eexists. split; [right; left | reflexivity].
Defined.

(** ** The loader *)

Example loader_examples :
  Loader_construct_object example_loader
    (MappingNode [("bar", IncludeNode "foo.a")])
  = (["foo.a"], Ok (VDict {[ "bar" := VStr "b" ]}))
  ∧ Loader_construct_object example_loader
      (MappingNode [("bar", MappingNode [("_COMMON_", ScalarNode (SStr "foo"));
                                         ("i", ScalarNode (SStr "j"))])])
    = (["foo"], Ok (VDict {[ "bar" := VDict {[ "a" := VStr "b";
                                               "c" := VStr "d";
                                               "i" := VStr "j" ]} ]}))
  ∧ Loader_construct_object example_loader
      (MappingNode [("bar", SequenceNode [ScalarNode (SStr "_COMMON_baz");
                                          MappingNode [("i", ScalarNode (SStr "j"))]])])
    = (["baz"], Ok (VDict {[ "bar" := VList [VDict {[ "e" := VStr "f" ]};
                                             VDict {[ "g" := VStr "h" ]};
                                             VDict {[ "i" := VStr "j" ]}] ]})).
Proof. repeat split; vm_compute; reflexivity. Qed.

(** A merge key that holds a nested sequence is dropped: the sequence is
    empty when the mapping is post-processed.  A merge key that holds a
    number raises, and so does one that includes a mapping of the common
    data. *)
Example merge_key_examples :
  Loader_construct_object example_loader
    (MappingNode [("_COMMON_", SequenceNode [ScalarNode (SStr "foo")]);
                  ("i", ScalarNode (SStr "j"))])
  = ([], Ok (VDict {[ "i" := VStr "j" ]}))
  ∧ Loader_construct_object example_loader
      (MappingNode [("_COMMON_", ScalarNode (SInt 3))])
    = ([], Raise (AttributeError "'int' object has no attribute 'split'"))
  ∧ Loader_construct_object example_loader
      (MappingNode [("_COMMON_", IncludeNode "foo")])
    = (["foo"],
       Raise (AttributeError "'dict' object has no attribute 'split'")).
Proof. repeat split; vm_compute; reflexivity. Qed.

(** The collections are completed level by level.  The include of the
    key [b] is resolved when the root mapping is built, before the nested
    mapping of the key [a] is completed: when both fail, the exception is
    that of [b], and the path of [a] is never asked for; when both
    resolve, the calls are made in this order. *)
Example completion_order_examples :
  Loader_construct_object example_loader
    (MappingNode [("a", MappingNode [("_COMMON_", ScalarNode (SStr "foo.zz"))]);
                  ("b", IncludeNode "foo.yy")])
  = (["foo.yy"],
     Raise (LayoutException
       "Command [surface/compute/list.yaml] references common command data attribute [yy] in path [foo.yy] but it does not exist."))
  ∧ Loader_construct_object example_loader
      (MappingNode [("a", MappingNode [("_COMMON_", ScalarNode (SStr "foo"))]);
                    ("b", IncludeNode "foo.a")])
    = (["foo.a"; "foo"],
       Ok (VDict {[ "a" := VDict {[ "a" := VStr "b"; "c" := VStr "d" ]};
                    "b" := VStr "b" ]}))
  ∧ Loader_construct_object example_loader
      (SequenceNode
         [SequenceNode [MappingNode [("_COMMON_", ScalarNode (SStr "foo.zz"))]];
          MappingNode [("_COMMON_", ScalarNode (SStr "foo.yy"))]])
    = (["foo.yy"],
       Raise (LayoutException
         "Command [surface/compute/list.yaml] references common command data attribute [yy] in path [foo.yy] but it does not exist."))
  ∧ generators
      (SequenceNode
         [SequenceNode [MappingNode [("k", ScalarNode SNone)]];
          MappingNode [("l", SequenceNode [])]])
    = [SequenceNode
         [SequenceNode [MappingNode [("k", ScalarNode SNone)]];
          MappingNode [("l", SequenceNode [])]];
       SequenceNode [MappingNode [("k", ScalarNode SNone)]];
       MappingNode [("l", SequenceNode [])];
       MappingNode [("k", ScalarNode SNone)];
       SequenceNode []].
Proof. repeat split; vm_compute; reflexivity. Qed.

(** [dict.update] with an object that is not a mapping: a sequence of
    pairs is merged and the next path is resolved; any other sequence
    raises. *)
Example update_examples :
  let pairs_loader :=
    {| impl_path := "surface/compute/list.yaml";
       common_data :=
         VDict {[ "p" := VList [VList [VStr "k"; VStr "v"]; VStr "xy"];
                  "q" := VList [VStr "abc"];
                  "r" := VList [VInt 3];
                  "s" := VList [VList [VList [VInt 1]; VStr "v"]];
                  "t" := VInt 7 ]} |} in
  Loader_construct_object pairs_loader
    (MappingNode [("_COMMON_", ScalarNode (SStr "p"));
                  ("i", ScalarNode (SStr "j"))])
  = (["p"], Ok (VDict {[ "k" := VStr "v"; "x" := VStr "y"; "i" := VStr "j" ]}))
  ∧ Loader_construct_object pairs_loader
      (MappingNode [("_COMMON_", ScalarNode (SStr "p,nope"))])
    = (["p"; "nope"],
       Raise (LayoutException
         "Command [surface/compute/list.yaml] references common command data attribute [nope] in path [nope] but it does not exist."))
  ∧ Loader_construct_object pairs_loader
      (MappingNode [("_COMMON_", ScalarNode (SStr "q,nope"))])
    = (["q"],
       Raise (ValueError
         "dictionary update sequence element #0 has length 3; 2 is required"))
  ∧ Loader_construct_object pairs_loader
      (MappingNode [("_COMMON_", ScalarNode (SStr "r"))])
    = (["r"],
       Raise (TypeError
         "cannot convert dictionary update sequence element #0 to a sequence"))
  ∧ Loader_construct_object pairs_loader
      (MappingNode [("_COMMON_", ScalarNode (SStr "s"))])
    = (["s"], Raise (TypeError "unhashable type: 'list'"))
  ∧ Loader_construct_object pairs_loader
      (MappingNode [("_COMMON_", ScalarNode (SStr "t"))])
    = (["t"], Raise (TypeError "'int' object is not iterable")).
Proof. repeat split; vm_compute; reflexivity. Qed.

(** An induction principle for nodes that reaches the children of
    sequences and mappings. *)
Lemma node_ind' (P : node → Prop) :
  (∀ s, P (ScalarNode s)) →
  (∀ attribute_path, P (IncludeNode attribute_path)) →
  (∀ items, Forall P items → P (SequenceNode items)) →
  (∀ pairs, Forall (λ pair, P pair.2) pairs → P (MappingNode pairs)) →
  ∀ n, P n.
Proof.
  intros Hscalar Hinclude Hsequence Hmapping.
  fix IH 1. intros [s|attribute_path|items|pairs].
  - apply Hscalar.
  - apply Hinclude.
  - apply Hsequence. induction items as [|child items IHitems].
    + constructor.
    + constructor; [apply IH | apply IHitems].
  - apply Hmapping. induction pairs as [|[key child] pairs IHpairs].
    + constructor.
    + constructor; [apply IH | apply IHpairs].
Qed.

Section monad_laws.
Context {E : Type}.

Lemma bind_ret_l {A B} (a : A) (f : A → W E B) : bind (ret a) f = f a.
Proof. unfold bind, ret. by destruct (f a). Qed.

Lemma bind_ret_r {A} (m : W E A) : bind m ret = m.
Proof.
  destruct m as [calls [a|e]]; unfold bind, ret; [|done].
  by rewrite app_nil_r.
Qed.

Lemma bind_Ok_inv {A B} (m : W E A) (f : A → W E B) calls b :
  bind m f = (calls, Ok b) →
  ∃ calls1 a calls2,
    m = (calls1, Ok a) ∧ f a = (calls2, Ok b) ∧ calls = calls1 ++ calls2.
Proof.
  destruct m as [calls1 [a|e]]; unfold bind; [|done].
  destruct (f a) as [calls2 r] eqn:Hf. intros [= <- ->]. eauto 6.
Qed.

Lemma bind_ext_Ok {A B} (m : W E A) (f g : A → W E B) :
  (∀ calls a, m = (calls, Ok a) → f a = g a) → bind m f = bind m g.
Proof.
  intros Hfg. destruct m as [calls [a|e]]; unfold bind; [|done].
  by rewrite (Hfg calls a).
Qed.

Lemma bind_assoc {A B C} (m : W E A) (f : A → W E B) (g : B → W E C) :
  bind (bind m f) g = bind m (λ a, bind (f a) g).
Proof.
  destruct m as [calls [a|e]]; unfold bind; [|done].
  destruct (f a) as [calls1 [b|e]]; [|done].
  destruct (g b) as [calls2 r]. by rewrite app_assoc.
Qed.

Lemma bind_calls {A B} (m : W E A) (f : A → W E B) :
  (bind m f).1
  = m.1 ++ match m.2 with Ok a => (f a).1 | Raise _ => [] end.
Proof.
  destruct m as [calls [a|e]]; unfold bind; simpl.
  - by destruct (f a).
  - by rewrite app_nil_r.
Qed.

Lemma bind_result {A B} (m : W E A) (f : A → W E B) :
  (bind m f).2 = match m.2 with Ok a => (f a).2 | Raise e => Raise e end.
Proof.
  destruct m as [calls [a|e]]; unfold bind; simpl; [|done].
  by destruct (f a).
Qed.

End monad_laws.

(** *** The order of completion *)

Lemma elem_of_concat {A} (x : A) (ls : list (list A)) :
  x ∈ concat ls ↔ ∃ l, l ∈ ls ∧ x ∈ l.
Proof.
  rewrite list_elem_of_In, in_concat. split.
  - intros (l & Hl & Hx). exists l. by rewrite !list_elem_of_In.
  - intros (l & Hl & Hx). exists l. by rewrite <- !list_elem_of_In.
Qed.

Lemma height_child n child : child ∈ children n → height child < height n.
Proof.
  destruct n as [s|text|items|pairs]; simpl;
    try (by intros ?%not_elem_of_nil).
  - intros Hin. apply Nat.lt_succ_r.
    induction items as [|c items IH]; [by apply not_elem_of_nil in Hin|].
    simpl. apply elem_of_cons in Hin as [->|Hin];
      [lia | specialize (IH Hin); lia].
  - intros Hin. apply Nat.lt_succ_r.
    induction pairs as [|[k c] pairs IH]; simpl in *;
      [by apply not_elem_of_nil in Hin|].
    apply elem_of_cons in Hin as [->|Hin];
      [lia | specialize (IH Hin); lia].
Qed.

(** No collection lies as deep as the height of the node: the queue
    [generators] holds every collection of the document. *)
Lemma generators_at_height depth n g :
  g ∈ generators_at depth n → depth < height n.
Proof.
  revert n. induction depth as [|depth IH]; intros n; simpl.
  - destruct n; simpl; try (by intros ?%not_elem_of_nil); lia.
  - intros (l & (child & -> & Hchild)%list_elem_of_fmap & Hg)%elem_of_concat.
    apply IH in Hg. apply height_child in Hchild. lia.
Qed.

Lemma generators_at_generators depth n g :
  g ∈ generators_at depth n → g ∈ generators n.
Proof.
  intros Hg. unfold generators. apply elem_of_concat.
  exists (generators_at depth n). split; [|done].
  apply list_elem_of_fmap. exists depth. split; [done|].
  apply elem_of_seq. apply generators_at_height in Hg. lia.
Qed.

Lemma generators_at_child depth n child g :
  child ∈ children n → g ∈ generators_at depth child →
  g ∈ generators_at (S depth) n.
Proof.
  intros Hchild Hg. simpl. apply elem_of_concat.
  exists (generators_at depth child). split; [|done].
  by apply list_elem_of_fmap_2.
Qed.

(** When the root and the generators raise nothing, the object of the
    document is there: what [construct_node] assembles is built of the
    same calls of the same methods, on data that differ in the content of
    the nested collections only, which the methods of the loader do not
    look at. *)
Section assembly.
Context {E : Type}.
Variable construct_tagged : string → W E object.
Variable self_construct_sequence : list slot → W E (list slot).
Variable self_construct_mapping : gmap string slot → W E (gmap string slot).
Hypothesis sequence_shape : ∀ data1 data2,
  Forall2 same_shape data1 data2 →
  is_Ok (self_construct_sequence data1).2 = true →
  is_Ok (self_construct_sequence data2).2 = true.
Hypothesis mapping_shape : ∀ data1 data2 : gmap string slot,
  (∀ key, option_Forall2 same_shape (data1 !! key) (data2 !! key)) →
  is_Ok (self_construct_mapping data1).2 = true →
  is_Ok (self_construct_mapping data2).2 = true.

Local Abbreviation shallow := (construct_shallow construct_tagged).
Local Abbreviation deep :=
  (construct_node construct_tagged self_construct_sequence
                  self_construct_mapping).
Local Abbreviation generator :=
  (run_generator construct_tagged self_construct_sequence
                 self_construct_mapping).

Lemma is_Ok_bind {A B} (m : W E A) (f : A → W E B) :
  is_Ok (bind m f).2 = true ↔
  ∃ calls a, m = (calls, Ok a) ∧ is_Ok (f a).2 = true.
Proof.
  rewrite bind_result. destruct m as [calls [a|e]]; simpl.
  - split; [by eauto|]. by intros (? & ? & [= _ <-] & ?).
  - split; [done|]. by intros (? & ? & ? & _).
Qed.

Lemma run_generators_Ok queue :
  is_Ok (run_generators construct_tagged self_construct_sequence
           self_construct_mapping queue).2 = true →
  Forall (λ g, is_Ok (generator g).2 = true) queue.
Proof.
  induction queue as [|g queue IH]; simpl; [constructor|].
  intros (calls & [] & Hg & Hqueue)%is_Ok_bind.
  constructor; [by rewrite Hg | by apply IH].
Qed.

Lemma construct_items_Ok (construct : node → W E object) items calls data
    child :
  construct_items construct items = (calls, Ok data) → child ∈ items →
  is_Ok (construct child).2 = true.
Proof.
  revert calls data. induction items as [|c items IH]; intros calls data;
    simpl.
  - by intros _ ?%not_elem_of_nil.
  - intros (calls1 & s1 & ? & Hs1
            & (calls2 & rest & ? & Hrest & _)%bind_Ok_inv & _)%bind_Ok_inv.
    intros [->|Hin]%elem_of_cons; [|by eapply IH].
    unfold construct_child in Hs1.
    by apply bind_Ok_inv in Hs1 as (? & v & ? & -> & _).
Qed.

Lemma construct_pairs_Ok (construct : node → W E object) pairs mapping calls
    data (pair : string * node) :
  construct_pairs construct mapping pairs = (calls, Ok data) → pair ∈ pairs →
  is_Ok (construct pair.2).2 = true.
Proof.
  revert mapping calls data.
  induction pairs as [|[k c] pairs IH]; intros mapping calls data; simpl.
  - by intros _ ?%not_elem_of_nil.
  - intros (calls1 & s1 & calls2 & Hs1 & Hrest & _)%bind_Ok_inv.
    intros [->|Hin]%elem_of_cons; [|by eapply IH].
    unfold construct_child in Hs1.
    apply bind_Ok_inv in Hs1 as (? & v & ? & Hc & _). simpl.
    by rewrite Hc.
Qed.

Lemma construct_child_shape child calls s1 :
  construct_child shallow child = (calls, Ok s1) →
  is_Ok (deep child).2 = true →
  ∃ calls' s2,
    construct_child deep child = (calls', Ok s2) ∧ same_shape s1 s2.
Proof.
  destruct child as [s|text|items|pairs]; intros Hshallow Hdeep.
  - exists calls, s1. split; [exact Hshallow|].
    by apply bind_Ok_inv in Hshallow as (? & v & ? & _ & [= _ <-] & _).
  - exists calls, s1. split; [exact Hshallow|].
    by apply bind_Ok_inv in Hshallow as (? & v & ? & _ & [= _ <-] & _).
  - apply bind_Ok_inv in Hshallow as (? & v0 & ? & _ & [= _ <-] & _).
    destruct (deep (SequenceNode items)) as [calls' [v|e]] eqn:Hv; [|done].
    exists calls', (Pending v). split; [|done].
    unfold construct_child. rewrite Hv. unfold bind, ret. simpl.
    by rewrite app_nil_r.
  - apply bind_Ok_inv in Hshallow as (? & v0 & ? & _ & [= _ <-] & _).
    destruct (deep (MappingNode pairs)) as [calls' [v|e]] eqn:Hv; [|done].
    exists calls', (Pending v). split; [|done].
    unfold construct_child. rewrite Hv. unfold bind, ret. simpl.
    by rewrite app_nil_r.
Qed.

Lemma construct_items_shape items calls data1 :
  construct_items shallow items = (calls, Ok data1) →
  Forall (λ child, is_Ok (deep child).2 = true) items →
  ∃ calls' data2,
    construct_items deep items = (calls', Ok data2)
    ∧ Forall2 same_shape data1 data2.
Proof.
  intros Hshallow Hdeep. revert calls data1 Hshallow.
  induction Hdeep as [|child items Hchild _ IH]; intros calls data1; simpl.
  - intros [= _ <-]. by exists [], [].
  - intros (calls1 & s1 & ? & Hs1
            & (calls2 & rest1 & ? & Hrest & [= _ <-] & _)%bind_Ok_inv & _)
      %bind_Ok_inv.
    destruct (construct_child_shape _ _ _ Hs1 Hchild)
      as (calls1' & s2 & -> & Hshape).
    destruct (IH _ _ Hrest) as (calls2' & rest2 & -> & Hshapes).
    exists (calls1' ++ calls2' ++ []), (s2 :: rest2).
    split; [done | by constructor].
Qed.

Lemma construct_pairs_shape pairs (mapping1 mapping2 : gmap string slot)
    calls data1 :
  (∀ key, option_Forall2 same_shape (mapping1 !! key) (mapping2 !! key)) →
  construct_pairs shallow mapping1 pairs = (calls, Ok data1) →
  Forall (λ pair : string * node, is_Ok (deep pair.2).2 = true) pairs →
  ∃ calls' data2,
    construct_pairs deep mapping2 pairs = (calls', Ok data2)
    ∧ ∀ key, option_Forall2 same_shape (data1 !! key) (data2 !! key).
Proof.
  intros Hmapping Hshallow Hdeep.
  revert mapping1 mapping2 calls data1 Hmapping Hshallow.
  induction Hdeep as [|[k child] pairs Hchild _ IH];
    intros mapping1 mapping2 calls data1 Hmapping; simpl.
  - intros [= _ <-]. by exists [], mapping2.
  - intros (calls1 & s1 & calls2 & Hs1 & Hrest & _)%bind_Ok_inv.
    destruct (construct_child_shape _ _ _ Hs1 Hchild)
      as (calls1' & s2 & -> & Hshape).
    destruct (IH (<[k := s1]> mapping1) (<[k := s2]> mapping2) calls2 data1)
      as (calls2' & data2 & Hdata2 & Hshapes); [|done|].
    { intros key. destruct (decide (key = k)) as [->|Hne].
      - rewrite !lookup_insert_eq. by constructor.
      - by rewrite !lookup_insert_ne. }
    exists (calls1' ++ calls2'), data2. split; [|done].
    unfold bind. by rewrite Hdata2.
Qed.

Lemma construct_node_Ok n :
  is_Ok (shallow n).2 = true →
  (∀ depth g, g ∈ generators_at depth n → is_Ok (generator g).2 = true) →
  is_Ok (deep n).2 = true.
Proof.
  induction n as [s|text|items IH|pairs IH] using node_ind';
    intros Hroot Hgenerators; try done.
  - pose proof (Hgenerators 0 _ (list_elem_of_here _ _)) as Hself.
    simpl in Hself.
    apply is_Ok_bind in Hself as (calls & data1 & Hdata1
      & (calls1 & l & Hl & _)%is_Ok_bind).
    destruct (construct_items_shape _ _ _ Hdata1)
      as (calls' & data2 & Hdata2 & Hshape).
    { rewrite Forall_forall in IH |- *. intros child Hchild.
      apply IH; [done | |].
      - by eapply construct_items_Ok.
      - intros depth g Hg. apply (Hgenerators (S depth)).
        by apply generators_at_child with (child := child). }
    simpl. rewrite Hdata2, bind_result. simpl. rewrite bind_result.
    assert (is_Ok (self_construct_sequence data2).2 = true) as Hhook
      by (apply (sequence_shape data1); [done | by rewrite Hl]).
    by destruct (self_construct_sequence data2) as [calls2 [l2|e]].
  - pose proof (Hgenerators 0 _ (list_elem_of_here _ _)) as Hself.
    simpl in Hself.
    apply is_Ok_bind in Hself as (calls & data1 & Hdata1
      & (calls1 & m & Hm & _)%is_Ok_bind).
    destruct (construct_pairs_shape pairs ∅ ∅ calls data1)
      as (calls' & data2 & Hdata2 & Hshape); [by constructor | done | |].
    { rewrite Forall_forall in IH |- *. intros pair Hpair.
      apply IH; [done | |].
      - by eapply construct_pairs_Ok.
      - intros depth g Hg. apply (Hgenerators (S depth)).
        apply generators_at_child with (child := pair.2); [|done].
        simpl. by apply list_elem_of_fmap_2. }
    simpl. rewrite Hdata2, bind_result. simpl. rewrite bind_result.
    assert (is_Ok (self_construct_mapping data2).2 = true) as Hhook
      by (apply (mapping_shape data1); [done | by rewrite Hm]).
    by destruct (self_construct_mapping data2) as [calls2 [m2|e]].
Qed.

Lemma construct_document_Ok n calls :
  (do _ <- shallow n;
   run_generators construct_tagged self_construct_sequence
     self_construct_mapping (generators n)) = (calls, Ok tt) →
  ∃ v, construct_document construct_tagged self_construct_sequence
         self_construct_mapping n = (calls, Ok v)
       ∧ (deep n).2 = Ok v.
Proof.
  intros Hrun.
  assert (is_Ok (deep n).2 = true) as Hdeep.
  { apply bind_Ok_inv in Hrun as (calls1 & v0 & calls2 & Hroot & Hqueue & _).
    apply construct_node_Ok; [by rewrite Hroot|].
    intros depth g Hg%generators_at_generators.
    assert (Hall : Forall (λ g, is_Ok (generator g).2 = true) (generators n))
      by (apply run_generators_Ok; by rewrite Hqueue).
    rewrite Forall_forall in Hall. by apply Hall. }
  destruct (deep n).2 as [v|e] eqn:Hv; [|done].
  exists v. split; [|done].
  unfold construct_document. rewrite <- bind_assoc, Hrun, Hv.
  unfold bind, lift. by rewrite app_nil_r.
Qed.

End assembly.

(** The methods of [Loader] raise, or not, by what the complete slots
    hold and by the common data: not by the content of a nested
    collection, nor by what has been gathered so far. *)
Section loader_assembly.
Variable self : Loader.

Lemma list_extend_Ok (new_list1 new_list2 : list slot) other :
  is_Ok (list_extend new_list1 other) = true →
  is_Ok (list_extend new_list2 other) = true.
Proof. by destruct other. Qed.

Lemma extend_from_paths_Ok (new_list1 new_list2 : list slot) paths :
  is_Ok (extend_from_paths self new_list1 paths).2 = true →
  is_Ok (extend_from_paths self new_list2 paths).2 = true.
Proof.
  revert new_list1 new_list2.
  induction paths as [|path paths IH]; intros new_list1 new_list2; simpl;
    [done|].
  rewrite !bind_result. unfold _GetData. simpl.
  destruct (_GetData_result self path) as [other|e]; [|done].
  rewrite !bind_result. unfold lift. simpl.
  pose proof (list_extend_Ok new_list1 new_list2 other) as Hextend.
  destruct (list_extend new_list1 other) as [l1|e1]; [|done].
  destruct (list_extend new_list2 other) as [l2|e2]; [|by intros _; auto].
  apply IH.
Qed.

Lemma merge_items_Ok (new_list1 new_list2 data1 data2 : list slot) :
  Forall2 same_shape data1 data2 →
  is_Ok (merge_items self new_list1 data1).2 = true →
  is_Ok (merge_items self new_list2 data2).2 = true.
Proof.
  intros Hshape. revert new_list1 new_list2.
  induction Hshape as [|i1 i2 data1 data2 Hi _ IH];
    intros new_list1 new_list2; [done|].
  destruct i1 as [v1|v1], i2 as [v2|v2]; simpl in Hi; try done.
  - subst v2. simpl. destruct v1 as [| | |s| |]; try apply IH.
    destruct (String.prefix MERGE_MACRO s); [|apply IH].
    rewrite !bind_result.
    pose proof (extend_from_paths_Ok new_list1 new_list2
                  (split "," (string_drop (String.length MERGE_MACRO) s)))
      as Hextend.
    destruct (extend_from_paths self new_list1 _).2 as [l1|e1]; [|done].
    destruct (extend_from_paths self new_list2 _).2 as [l2|e2];
      [|by intros _; auto].
    apply IH.
  - apply IH.
Qed.

Lemma update_from_sequence_Ok index (data1 data2 : gmap string slot)
    elements :
  is_Ok (update_from_sequence index data1 elements) = true →
  is_Ok (update_from_sequence index data2 elements) = true.
Proof.
  revert index data1 data2.
  induction elements as [|element elements IH]; intros index data1 data2;
    simpl; [done|].
  destruct (update_unpack index element) as [[key value]|e]; [|done].
  destruct key; simpl; try done; apply IH.
Qed.

Lemma dict_update_Ok (data1 data2 : gmap string slot) other :
  is_Ok (dict_update data1 other) = true →
  is_Ok (dict_update data2 other) = true.
Proof. destruct other; simpl; try done; apply update_from_sequence_Ok. Qed.

Lemma update_from_paths_Ok (data1 data2 : gmap string slot) paths :
  is_Ok (update_from_paths self data1 paths).2 = true →
  is_Ok (update_from_paths self data2 paths).2 = true.
Proof.
  revert data1 data2.
  induction paths as [|path paths IH]; intros data1 data2; simpl; [done|].
  rewrite !bind_result. unfold _GetData. simpl.
  destruct (_GetData_result self path) as [other|e]; [|done].
  rewrite !bind_result. unfold lift. simpl.
  pose proof (dict_update_Ok data1 data2 other) as Hupdate.
  destruct (dict_update data1 other) as [m1|e1]; [|done].
  destruct (dict_update data2 other) as [m2|e2]; [|by intros _; auto].
  apply IH.
Qed.

Lemma construct_sequence_shape (data1 data2 : list slot) :
  Forall2 same_shape data1 data2 →
  is_Ok (construct_sequence self data1).2 = true →
  is_Ok (construct_sequence self data2).2 = true.
Proof. apply merge_items_Ok. Qed.

Lemma construct_mapping_shape (data1 data2 : gmap string slot) :
  (∀ key, option_Forall2 same_shape (data1 !! key) (data2 !! key)) →
  is_Ok (construct_mapping self data1).2 = true →
  is_Ok (construct_mapping self data2).2 = true.
Proof.
  intros Hshape. unfold construct_mapping.
  destruct (Hshape MERGE_MACRO) as [[v1|v1] [v2|v2] Hv|]; simpl in *;
    try done.
  subst v2. destruct (truthy v1); [|done].
  destruct v1; try done. apply update_from_paths_Ok.
Qed.

(** When the root and the generators of a document raise nothing, the
    loader returns the object of the document. *)
Lemma Loader_construct_object_returns n calls :
  (do _ <- construct_shallow (include self) n;
   run_generators (include self) (construct_sequence self)
     (construct_mapping self) (generators n)) = (calls, Ok tt) →
  ∃ v, Loader_construct_object self n = (calls, Ok v).
Proof.
  intros Hrun.
  destruct (construct_document_Ok (include self) (construct_sequence self)
              (construct_mapping self) construct_sequence_shape
              construct_mapping_shape n calls Hrun) as (v & Hv & _).
  by exists v.
Qed.

End loader_assembly.

Section loader_properties.
Variable self : Loader.

(** *** Failures of [_GetData] abort the parse *)

Lemma propagates_ret {A} (a : A) : propagates self (ret a).
Proof. intros p e Hin. by apply not_elem_of_nil in Hin. Qed.

Lemma propagates_raise {A} (e0 : exception) :
  propagates self (raise (A:=A) e0).
Proof. intros p e Hin. by apply not_elem_of_nil in Hin. Qed.

Lemma propagates_lift {A} (r : result A) : propagates self (lift r).
Proof. intros p e Hin. by apply not_elem_of_nil in Hin. Qed.

Lemma propagates_GetData attribute_path :
  propagates self (_GetData self attribute_path).
Proof.
  intros p e Hin Hp. unfold _GetData in *. simpl in *.
  apply list_elem_of_singleton in Hin as ->. done.
Qed.

Lemma propagates_bind {A B} (m : M A) (f : A → M B) :
  propagates self m → (∀ a, propagates self (f a)) →
  propagates self (bind m f).
Proof.
  intros Hm Hf p e Hin Hp.
  destruct m as [calls [a|e']]; unfold bind in *; simpl in *.
  - destruct (f a) as [calls' r] eqn:Hfa. simpl in *.
    apply elem_of_app in Hin as [Hin|Hin].
    + by specialize (Hm p e Hin Hp).
    + specialize (Hf a p e). rewrite Hfa in Hf. by apply Hf.
  - specialize (Hm p e Hin Hp). simpl in Hm. by injection Hm as ->.
Qed.

Lemma propagates_update_from_paths data paths :
  propagates self (update_from_paths self data paths).
Proof.
  revert data. induction paths as [|path rest IH]; intros data; simpl.
  - apply propagates_ret.
  - apply propagates_bind; [apply propagates_GetData|]. intros other.
    apply propagates_bind; [apply propagates_lift|]. intros data'. apply IH.
Qed.

Lemma propagates_construct_mapping data :
  propagates self (construct_mapping self data).
Proof.
  unfold construct_mapping.
  destruct (slot_truthy _); [|apply propagates_ret].
  destruct (completed _); try apply propagates_raise.
  apply propagates_update_from_paths.
Qed.

Lemma propagates_extend_from_paths new_list paths :
  propagates self (extend_from_paths self new_list paths).
Proof.
  revert new_list. induction paths as [|path rest IH]; intros new_list; simpl.
  - apply propagates_ret.
  - apply propagates_bind; [apply propagates_GetData|]. intros other.
    apply propagates_bind; [apply propagates_lift|]. intros l. apply IH.
Qed.

Lemma propagates_construct_sequence data :
  propagates self (construct_sequence self data).
Proof.
  unfold construct_sequence. generalize (@nil slot) as new_list.
  induction data as [|i rest IH]; intros new_list; simpl.
  - apply propagates_ret.
  - destruct i as [[| | |s| |]|]; try apply IH.
    destruct (String.prefix MERGE_MACRO s); [|apply IH].
    apply propagates_bind; [apply propagates_extend_from_paths|].
    intros l. apply IH.
Qed.

Lemma propagates_construct_child (construct : node → M object) child :
  propagates self (construct child) →
  propagates self (construct_child construct child).
Proof.
  intros Hchild. apply propagates_bind; [done|]. intros v.
  apply propagates_ret.
Qed.

Lemma propagates_construct_items (construct : node → M object) items :
  Forall (λ child, propagates self (construct child)) items →
  propagates self (construct_items construct items).
Proof.
  induction 1 as [|child items Hchild _ IH]; simpl.
  - apply propagates_ret.
  - apply propagates_bind; [by apply propagates_construct_child|]. intros v.
    apply propagates_bind; [done|]. intros vs. apply propagates_ret.
Qed.

Lemma propagates_construct_pairs (construct : node → M object) mapping pairs :
  Forall (λ pair, propagates self (construct pair.2)) pairs →
  propagates self (construct_pairs construct mapping pairs).
Proof.
  intros Hpairs. revert mapping.
  induction Hpairs as [|[key child] pairs Hchild _ IH]; intros mapping; simpl.
  - apply propagates_ret.
  - apply propagates_bind; [by apply propagates_construct_child|].
    intros v. apply IH.
Qed.

Lemma propagates_construct_shallow n :
  propagates self (construct_shallow (include self) n).
Proof.
  destruct n; simpl; try apply propagates_ret. apply propagates_GetData.
Qed.

Lemma propagates_run_generator n :
  propagates self
    (run_generator (include self) (construct_sequence self)
                   (construct_mapping self) n).
Proof.
  destruct n as [s|attribute_path|items|pairs]; simpl;
    try apply propagates_ret.
  - apply propagates_bind.
    { apply propagates_construct_items, Forall_forall. intros child _.
      apply propagates_construct_shallow. }
    intros data.
    apply propagates_bind; [apply propagates_construct_sequence|].
    intros l. apply propagates_ret.
  - apply propagates_bind.
    { apply propagates_construct_pairs, Forall_forall. intros pair _.
      apply propagates_construct_shallow. }
    intros data.
    apply propagates_bind; [apply propagates_construct_mapping|].
    intros m. apply propagates_ret.
Qed.

Lemma propagates_run_generators queue :
  propagates self
    (run_generators (include self) (construct_sequence self)
                    (construct_mapping self) queue).
Proof.
  induction queue as [|n queue IH]; simpl.
  - apply propagates_ret.
  - apply propagates_bind; [apply propagates_run_generator|]. by intros _.
Qed.

Lemma propagates_construct_object n :
  propagates self (Loader_construct_object self n).
Proof.
  unfold Loader_construct_object, construct_document.
  apply propagates_bind; [apply propagates_construct_shallow|]. intros _.
  apply propagates_bind; [apply propagates_run_generators|]. intros _.
  apply propagates_lift.
Qed.

(** What [_GetData] raises on a path whose first missing or falsy segment
    is looked up in a mapping. *)
Lemma get_attributes_missing impl_path attribute_path before attribute rest
    (value : object) (m : gmap string object) :
  descend value before = Some (VDict m) →
  truthy (default VNone (m !! attribute)) = false →
  get_attributes impl_path attribute_path (before ++ attribute :: rest) value
  = Raise (LayoutException
             (no_attribute_msg impl_path attribute attribute_path)).
Proof.
  revert value. induction before as [|key before IH]; intros value Hd Hfalsy.
  - simpl in Hd. injection Hd as ->. simpl. by rewrite Hfalsy.
  - simpl in Hd. destruct value as [| | | | |m0]; try done.
    simpl. destruct (m0 !! key) as [value'|]; [|done]. simpl.
    destruct (truthy value'); [|done]. by apply IH.
Qed.

End loader_properties.

(** C6, as amended.  When the parse of a document calls [_GetData] on an
    attribute path and the common data is absent or falsy, the parse
    raises a [LayoutException] that names the source file (and not the
    attribute path); when the common data is there and a segment of the
    path, looked up in a mapping, is missing or has a falsy value, the
    parse raises a [LayoutException] that names the source file, the
    segment and the attribute path.  The parse returns either an object or
    an exception, never both. *)
Theorem failed_resolution_aborts_parse (self : Loader) (n : node)
    (attribute_path : string) :
  attribute_path ∈ (Loader_construct_object self n).1 →
  (truthy (common_data self) = false →
   (Loader_construct_object self n).2
   = Raise (LayoutException
              ("Command [" +:+ impl_path self
                 +:+ "] references common command data but it does not exist.")))
  ∧ (truthy (common_data self) = true →
     ∀ before attribute rest (m : gmap string object),
       split "." attribute_path = before ++ attribute :: rest →
       descend (common_data self) before = Some (VDict m) →
       truthy (default VNone (m !! attribute)) = false →
       (Loader_construct_object self n).2
       = Raise (LayoutException
                  ("Command [" +:+ impl_path self
                     +:+ "] references common command data attribute ["
                     +:+ attribute +:+ "] in path [" +:+ attribute_path
                     +:+ "] but it does not exist."))).
Proof.
  intros Hcall. split.
  - intros Hfalsy.
    apply (propagates_construct_object self n attribute_path); [done|].
    unfold _GetData_result. by rewrite Hfalsy.
  - intros Htruthy before attribute rest m Hsplit Hdescend Hmissing.
    apply (propagates_construct_object self n attribute_path); [done|].
    unfold _GetData_result. rewrite Htruthy, Hsplit.
    by apply get_attributes_missing with (m := m).
Qed.

Lemma failed_resolution_aborts_parse_witness :
  (Loader_construct_object example_loader
     (MappingNode [("i", ScalarNode (SStr "j"));
                   ("bar", IncludeNode "foo.z")])).2
  = Raise (LayoutException
      "Command [surface/compute/list.yaml] references common command data attribute [z] in path [foo.z] but it does not exist.").
Proof.
  refine (proj2 (failed_resolution_aborts_parse example_loader
    (MappingNode [("i", ScalarNode (SStr "j")); ("bar", IncludeNode "foo.z")])
    "foo.z" _) _ ["foo"] "z" [] {[ "a" := VStr "b"; "c" := VStr "d" ]} _ _ _).
  - vm_compute. left.
  - reflexivity.
  - reflexivity.
  - vm_compute. reflexivity.
  - vm_compute. reflexivity.
Defined.

(** C6, as stated, fails: without common data the exception names the
    source file only; the attribute path of the marker is not in it. *)
Lemma missing_common_data_error_omits_path :
  Loader_construct_object orphan_loader
    (MappingNode [("bar", IncludeNode "foo.a")])
  = (["foo.a"],
     Raise (LayoutException
       "Command [surface/compute/list.yaml] references common command data but it does not exist."))
  ∧ ¬ ∃ msg,
        (Loader_construct_object orphan_loader
           (MappingNode [("bar", IncludeNode "foo.a")])).2
        = Raise (LayoutException msg)
        ∧ contains "foo.a" msg = true.
Proof.
  split; [reflexivity|].
  intros (msg & Hmsg & Hcontains). vm_compute in Hmsg.
  injection Hmsg as <-. vm_compute in Hcontains. discriminate.
Qed.

(** A segment looked up in an object that is not a mapping raises the
    [AttributeError] of the missing method [get], not a
    [LayoutException]. *)
Example get_data_through_text :
  _GetData_result example_loader "foo.a.x"
  = Raise (AttributeError "'str' object has no attribute 'get'").
Proof. reflexivity. Qed.

(** *** The merge of a mapping *)

Lemma update_from_paths_merges (self : Loader) (data : gmap string slot)
    paths (merged : list (gmap string object)) :
  Forall2 (λ path m, _GetData_result self path = Ok (VDict m)) paths merged →
  update_from_paths self data paths
  = (paths, Ok (foldl (λ d m, (Complete <$> m) ∪ d) data merged)).
Proof.
  intros Hall. revert data.
  induction Hall as [|path m paths merged Hpath _ IH]; intros data.
  - reflexivity.
  - simpl. unfold _GetData, bind, lift. rewrite Hpath. simpl.
    by rewrite IH.
Qed.

Lemma truthy_text s : s ≠ "" → truthy (VStr s) = true.
Proof.
  intros Hs. simpl. apply negb_true_iff. by apply String.eqb_neq.
Qed.

Lemma construct_mapping_truthy (self : Loader) (data : gmap string slot)
    s (merged : list (gmap string object)) :
  data !! MERGE_MACRO = Some (Complete (VStr s)) → s ≠ "" →
  Forall2 (λ path m, _GetData_result self path = Ok (VDict m))
          (split "," s) merged →
  construct_mapping self data
  = (split "," s,
     Ok (foldl (λ d m, (Complete <$> m) ∪ d)
               (delete MERGE_MACRO data) merged)).
Proof.
  intros Hkey Hs Hall. unfold construct_mapping. rewrite Hkey.
  cbn [default from_option id slot_truthy completed].
  rewrite truthy_text by done.
  by apply update_from_paths_merges.
Qed.

(** The merge key is dropped, too, when it holds a nested sequence or
    mapping, which is empty when the mapping is post-processed. *)
Lemma construct_mapping_falsy (self : Loader) (data : gmap string slot)
    (attribute_path : slot) :
  data !! MERGE_MACRO = Some attribute_path →
  slot_truthy attribute_path = false →
  construct_mapping self data = ([], Ok (delete MERGE_MACRO data)).
Proof.
  intros Hkey Hfalsy. unfold construct_mapping. rewrite Hkey.
  cbn [default from_option id]. by rewrite Hfalsy.
Qed.

Lemma foldl_update_absent key (data : gmap string slot)
    (merged : list (gmap string object)) :
  (∀ j m', merged !! j = Some m' → m' !! key = None) →
  foldl (λ d m, (Complete <$> m) ∪ d) data merged !! key = data !! key.
Proof.
  revert data. induction merged as [|m merged IH]; intros data Hnone; [done|].
  simpl. rewrite IH.
  - apply lookup_union_r. rewrite lookup_fmap, (Hnone 0 m); done.
  - intros j m' Hj. apply (Hnone (S j)). done.
Qed.

Lemma foldl_update_last key (data : gmap string slot)
    (merged : list (gmap string object)) i m common :
  merged !! i = Some m → m !! key = Some common →
  (∀ j m', i < j → merged !! j = Some m' → m' !! key = None) →
  foldl (λ d m, (Complete <$> m) ∪ d) data merged !! key
  = Some (Complete common).
Proof.
  revert data i. induction merged as [|m0 merged IH]; intros data i Hi Hm Hlast;
    [done|].
  destruct i as [|i]; simpl in *.
  - simplify_eq. rewrite foldl_update_absent.
    + apply lookup_union_Some_l. by rewrite lookup_fmap, Hm.
    + intros j m' Hj. apply (Hlast (S j)); [lia | done].
  - apply (IH _ i); [done | done |].
    intros j m' Hij Hj. apply (Hlast (S j)); [lia | done].
Qed.

(** C5.  For a mapping whose key [_COMMON_] holds a text, the key is
    removed, every comma-separated attribute path of the text is resolved
    against the common data, in order, and the entries of every resolved
    mapping are written over the mapping as [dict.update] does.  In
    particular, with the common data [{foo: {a: b, c: d}}], the mapping
    [{_COMMON_: foo, i: j}] becomes [{a: b, c: d, i: j}]. *)
Theorem construct_mapping_merges :
  (∀ (self : Loader) (data : gmap string slot) s
     (merged : list (gmap string object)),
     data !! MERGE_MACRO = Some (Complete (VStr s)) → s ≠ "" →
     Forall2 (λ path m, _GetData_result self path = Ok (VDict m))
             (split "," s) merged →
     construct_mapping self data
     = (split "," s,
        Ok (foldl (λ d m, (Complete <$> m) ∪ d)
                  (delete MERGE_MACRO data) merged)))
  ∧ Loader_construct_object
      {| impl_path := "surface/compute/list.yaml";
         common_data :=
           VDict {[ "foo" := VDict {[ "a" := VStr "b"; "c" := VStr "d" ]} ]} |}
      (MappingNode [("_COMMON_", ScalarNode (SStr "foo"));
                    ("i", ScalarNode (SStr "j"))])
    = (["foo"],
       Ok (VDict {[ "a" := VStr "b"; "c" := VStr "d"; "i" := VStr "j" ]})).
Proof.
  split.
  - intros self data s merged. apply construct_mapping_truthy.
  - vm_compute. reflexivity.
Qed.

Lemma construct_mapping_merges_witness :
  construct_mapping example_loader
    {[ "_COMMON_" := Complete (VStr "foo"); "i" := Complete (VStr "j") ]}
  = (["foo"],
     Ok {[ "a" := Complete (VStr "b"); "c" := Complete (VStr "d");
           "i" := Complete (VStr "j") ]}).
Proof.
  refine (eq_trans
    (proj1 construct_mapping_merges example_loader
       {[ "_COMMON_" := Complete (VStr "foo"); "i" := Complete (VStr "j") ]}
       "foo" [ {[ "a" := VStr "b"; "c" := VStr "d" ]} ] _ _ _) _).
  - vm_compute. reflexivity.
  - discriminate.
  - repeat constructor.
  - vm_compute. reflexivity.
Defined.

(** C9.  In the merge of a mapping the entries of the common data are
    written after those of the mapping itself: for a key that the mapping
    holds and that a resolved mapping of the common data holds too, the
    result holds the object of the common data (of the last resolved
    mapping that has the key). *)
Theorem common_data_overrides_local (self : Loader)
    (data : gmap string slot) s (merged : list (gmap string object))
    key (local : slot) i (m : gmap string object) common :
  data !! MERGE_MACRO = Some (Complete (VStr s)) → s ≠ "" →
  Forall2 (λ path m, _GetData_result self path = Ok (VDict m))
          (split "," s) merged →
  data !! key = Some local →
  merged !! i = Some m → m !! key = Some common →
  (∀ j m', i < j → merged !! j = Some m' → m' !! key = None) →
  ∃ result : gmap string slot,
    construct_mapping self data = (split "," s, Ok result)
    ∧ result !! key = Some (Complete common).
Proof.
  intros Hkey Hs Hall Hlocal Hi Hm Hlast.
  eexists. split; [by apply construct_mapping_truthy|].
  by apply foldl_update_last with (i := i) (m := m).
Qed.

Lemma common_data_overrides_local_witness :
  ∃ result : gmap string slot,
    construct_mapping example_loader
      {[ "_COMMON_" := Complete (VStr "foo");
         "a" := Complete (VStr "local") ]}
    = (["foo"], Ok result)
    ∧ result !! "a" = Some (Complete (VStr "b")).
Proof.
  apply (common_data_overrides_local example_loader
           {[ "_COMMON_" := Complete (VStr "foo");
              "a" := Complete (VStr "local") ]}
           "foo" [ {[ "a" := VStr "b"; "c" := VStr "d" ]} ]
           "a" (Complete (VStr "local")) 0
           {[ "a" := VStr "b"; "c" := VStr "d" ]} (VStr "b")).
  - vm_compute. reflexivity.
  - discriminate.
  - repeat constructor.
  - vm_compute. reflexivity.
  - reflexivity.
  - vm_compute. reflexivity.
  - intros [|j] m' Hij Hj; [lia | discriminate].
Defined.

(** C10.  For a mapping whose key [_COMMON_] holds a falsy object, the key
    is removed and the mapping is returned: no attribute path is resolved,
    the common data is not asked anything (whether it exists or not), and
    nothing is raised. *)
Theorem falsy_merge_key_is_dropped (self : Loader)
    (data : gmap string slot) (attribute_path : slot) :
  data !! MERGE_MACRO = Some attribute_path →
  truthy (completed attribute_path) = false →
  construct_mapping self data = ([], Ok (delete MERGE_MACRO data)).
Proof.
  intros Hkey Hfalsy.
  apply construct_mapping_falsy with (attribute_path := attribute_path);
    [done|].
  by destruct attribute_path.
Qed.

Lemma falsy_merge_key_is_dropped_witness :
  construct_mapping orphan_loader
    {[ "_COMMON_" := Complete (VStr ""); "i" := Complete (VStr "j") ]}
  = ([], Ok (delete MERGE_MACRO
               {[ "_COMMON_" := Complete (VStr "");
                  "i" := Complete (VStr "j") ]})).
Proof.
  apply (falsy_merge_key_is_dropped orphan_loader
           {[ "_COMMON_" := Complete (VStr ""); "i" := Complete (VStr "j") ]}
           (Complete (VStr ""))).
  - vm_compute. reflexivity.
  - reflexivity.
Defined.

(** *** Documents without markers *)

Section plain_documents.
Variable self : Loader.

Lemma construct_items_ext {E} (f g : node → W E object) items :
  Forall (λ child, f child = g child) items →
  construct_items f items = construct_items g items.
Proof.
  induction 1 as [|child items Hchild _ IH]; simpl; [done|].
  unfold construct_child. by rewrite Hchild, IH.
Qed.

Lemma construct_pairs_ext {E} (f g : node → W E object) pairs mapping :
  Forall (λ pair : string * node, f pair.2 = g pair.2) pairs →
  construct_pairs f mapping pairs = construct_pairs g mapping pairs.
Proof.
  intros Hpairs. revert mapping.
  induction Hpairs as [|[key child] pairs Hchild _ IH]; intros mapping; simpl;
    [done|].
  simpl in Hchild. unfold construct_child. rewrite Hchild.
  apply bind_ext_Ok. intros calls v _. apply IH.
Qed.

(** A key that no pair has keeps the slot it had. *)
Lemma construct_pairs_other_key {E} (f : node → W E object) key pairs
    mapping calls data :
  Forall (λ pair : string * node, pair.1 ≠ key) pairs →
  construct_pairs f mapping pairs = (calls, Ok data) →
  data !! key = mapping !! key.
Proof.
  intros Hpairs. revert mapping calls.
  induction Hpairs as [|[key' child] pairs Hkey _ IH]; intros mapping calls;
    simpl.
  - by intros [= _ ->].
  - intros (calls1 & v & calls2 & _ & Hrest & _)%bind_Ok_inv.
    rewrite (IH _ _ Hrest). by apply lookup_insert_ne.
Qed.

(** The plain loader makes no call. *)
Lemma bind_silent {A B} (m : M A) (f : A → M B) :
  m.1 = [] → (∀ a, (f a).1 = []) → (bind m f).1 = [].
Proof.
  intros Hm Hf. destruct m as [calls [a|e]]; simpl in Hm; subst;
    unfold bind; [|done].
  specialize (Hf a). destruct (f a) as [calls' r]. simpl in *. by subst.
Qed.

Lemma construct_items_silent (f : node → M object) items :
  Forall (λ child, (f child).1 = []) items →
  (construct_items f items).1 = [].
Proof.
  induction 1 as [|child items Hchild _ IH]; simpl; [done|].
  apply bind_silent; [by apply bind_silent|]. intros v.
  by apply bind_silent.
Qed.

Lemma construct_pairs_silent (f : node → M object) pairs mapping :
  Forall (λ pair : string * node, (f pair.2).1 = []) pairs →
  (construct_pairs f mapping pairs).1 = [].
Proof.
  intros Hpairs. revert mapping.
  induction Hpairs as [|[key child] pairs Hchild _ IH]; intros mapping; simpl;
    [done|].
  apply bind_silent; [by apply bind_silent|]. intros v. apply IH.
Qed.

Lemma construct_shallow_silent n :
  (construct_shallow no_constructor n).1 = [].
Proof. by destruct n. Qed.

Lemma run_generator_silent n :
  (run_generator no_constructor ret ret n).1 = [].
Proof.
  destruct n as [s|attribute_path|items|pairs]; simpl; try done.
  - apply bind_silent.
    { apply construct_items_silent, Forall_forall. intros child _.
      apply construct_shallow_silent. }
    intros data. by apply bind_silent.
  - apply bind_silent.
    { apply construct_pairs_silent, Forall_forall. intros pair _.
      apply construct_shallow_silent. }
    intros data. by apply bind_silent.
Qed.

Lemma run_generators_silent queue :
  (run_generators no_constructor ret ret queue).1 = [].
Proof.
  induction queue as [|n queue IH]; simpl; [done|].
  apply bind_silent; [apply run_generator_silent | done].
Qed.

Lemma yaml_Loader_silent n :
  yaml_Loader_construct_object n = ([], construct_object n).
Proof.
  unfold construct_object.
  enough ((yaml_Loader_construct_object n).1 = []) as Hsilent.
  { destruct (yaml_Loader_construct_object n). simpl in *. by subst. }
  unfold yaml_Loader_construct_object, construct_document.
  apply bind_silent; [apply construct_shallow_silent|]. intros _.
  apply bind_silent; [apply run_generators_silent | done].
Qed.

(** Without a merge marker among its items, a sequence is returned as
    the engine built it. *)
Lemma merge_items_plain new_list data :
  Forall (λ i, is_merge_item i = false) data →
  merge_items self new_list data = ret (new_list ++ data).
Proof.
  intros Hdata. revert new_list.
  induction Hdata as [|i data Hi _ IH]; intros new_list; simpl.
  - by rewrite app_nil_r.
  - rewrite (assoc_L (++) new_list [i] data : new_list ++ i :: data = _).
    destruct i as [[| | |s| |]|]; try apply IH.
    simpl in Hi. rewrite Hi. apply IH.
Qed.

(** Without the key [_COMMON_], a mapping is returned as the engine built
    it. *)
Lemma construct_mapping_plain (data : gmap string slot) :
  data !! MERGE_MACRO = None → construct_mapping self data = ret data.
Proof.
  intros Hkey. unfold construct_mapping. rewrite Hkey. simpl.
  by rewrite delete_id.
Qed.

(** The slot of a node that is not a merge marker is not a merge item,
    whether the children are constructed empty or complete. *)
Lemma plain_slot_not_merge_item (construct : node → M object) n calls v :
  (∀ s, construct (ScalarNode s) = ret (construct_scalar s)) →
  (∀ text, construct (IncludeNode text) = no_constructor text) →
  construct_child construct n = (calls, Ok v) →
  is_merge_marker n = false → is_merge_item v = false.
Proof.
  intros Hscalar Hinclude. unfold construct_child.
  intros (? & o & ? & Hn & [= _ <-] & _)%bind_Ok_inv Hmarker.
  destruct n as [s|attribute_path|items|pairs]; simpl; try done.
  - rewrite Hscalar in Hn. injection Hn as _ <-. by destruct s.
  - by rewrite Hinclude in Hn.
Qed.

Lemma plain_items_not_merge_items (construct : node → M object) items calls
    data :
  (∀ s, construct (ScalarNode s) = ret (construct_scalar s)) →
  (∀ text, construct (IncludeNode text) = no_constructor text) →
  Forall (λ child, is_merge_marker child = false) items →
  construct_items construct items = (calls, Ok data) →
  Forall (λ i, is_merge_item i = false) data.
Proof.
  intros Hscalar Hinclude Hitems. revert calls data.
  induction Hitems as [|child items Hchild _ IH]; intros calls data; simpl.
  - intros [= _ <-]. constructor.
  - intros (calls1 & v & ? & Hv
            & (calls2 & vs & ? & Hvs & [= _ <-] & _)%bind_Ok_inv & _)
      %bind_Ok_inv.
    constructor; [by eapply plain_slot_not_merge_item | by eapply IH].
Qed.

(** What [no_markers] says of the children of a collection. *)
Lemma no_markers_items items :
  no_markers (SequenceNode items) = true →
  Forall (λ child, is_merge_marker child = false) items
  ∧ Forall (λ child, no_markers child = true) items.
Proof.
  simpl. intros Hplain. apply Is_true_true, forallb_True in Hplain.
  split; (eapply Forall_impl; [exact Hplain|]); intros child Hc; simpl in Hc;
    apply andb_prop_elim in Hc as [Hmarker Hchild].
  - by apply negb_prop_elim, Is_true_false in Hmarker.
  - by apply Is_true_true.
Qed.

Lemma no_markers_pairs pairs :
  no_markers (MappingNode pairs) = true →
  Forall (λ pair : string * node, pair.1 ≠ MERGE_MACRO) pairs
  ∧ Forall (λ pair : string * node, no_markers pair.2 = true) pairs.
Proof.
  simpl. intros Hplain. apply Is_true_true, forallb_True in Hplain.
  split; (eapply Forall_impl; [exact Hplain|]); intros pair Hc; simpl in Hc;
    apply andb_prop_elim in Hc as [Hkey Hchild].
  - apply negb_prop_elim in Hkey. intros Heq. apply Hkey.
    apply Is_true_true. by apply String.eqb_eq.
  - by apply Is_true_true.
Qed.

(** The methods of the loader leave the collections of a document
    without markers as the engine built them, whether their children are
    still empty or complete. *)
Lemma no_markers_sequence {B} (f g : node → M object) items
    (k : list slot → M B) :
  (∀ s, g (ScalarNode s) = ret (construct_scalar s)) →
  (∀ text, g (IncludeNode text) = no_constructor text) →
  Forall (λ child, is_merge_marker child = false) items →
  Forall (λ child, f child = g child) items →
  (do data <- construct_items f items;
   do data <- construct_sequence self data;
   k data)
  = (do data <- construct_items g items;
     do data <- ret data;
     k data).
Proof.
  intros Hscalar Hinclude Hnot Hitems.
  rewrite (construct_items_ext f g items Hitems).
  apply bind_ext_Ok. intros calls data Hdata.
  unfold construct_sequence.
  by rewrite merge_items_plain by (by eapply plain_items_not_merge_items).
Qed.

Lemma no_markers_mapping {B} (f g : node → M object) pairs
    (k : gmap string slot → M B) :
  Forall (λ pair : string * node, pair.1 ≠ MERGE_MACRO) pairs →
  Forall (λ pair : string * node, f pair.2 = g pair.2) pairs →
  (do data <- construct_pairs f ∅ pairs;
   do data <- construct_mapping self data;
   k data)
  = (do data <- construct_pairs g ∅ pairs;
     do data <- ret data;
     k data).
Proof.
  intros Hkeys Hpairs.
  rewrite (construct_pairs_ext f g pairs ∅ Hpairs).
  apply bind_ext_Ok. intros calls data Hdata.
  rewrite construct_mapping_plain; [done|].
  by rewrite (construct_pairs_other_key _ _ _ _ _ _ Hkeys Hdata).
Qed.

Lemma no_markers_shallow n :
  no_markers n = true →
  construct_shallow (include self) n = construct_shallow no_constructor n.
Proof. by destruct n. Qed.

Lemma no_markers_generator n :
  no_markers n = true →
  run_generator (include self) (construct_sequence self)
                (construct_mapping self) n
  = run_generator no_constructor ret ret n.
Proof.
  destruct n as [s|attribute_path|items|pairs]; intros Hplain; try done.
  - apply no_markers_items in Hplain as [Hnot Hitems]. simpl.
    apply no_markers_sequence; try done.
    eapply Forall_impl; [exact Hitems|]. apply no_markers_shallow.
  - apply no_markers_pairs in Hplain as [Hkeys Hpairs]. simpl.
    apply no_markers_mapping; try done.
    eapply Forall_impl; [exact Hpairs|]. intros pair.
    apply no_markers_shallow.
Qed.

Lemma no_markers_generators_at depth n :
  no_markers n = true →
  Forall (λ g, no_markers g = true) (generators_at depth n).
Proof.
  revert n. induction depth as [|depth IH]; intros n Hplain; simpl.
  - destruct (is_collection n); by repeat constructor.
  - apply Forall_concat, Forall_fmap.
    destruct n as [s|attribute_path|items|pairs]; simpl; try constructor.
    + apply no_markers_items in Hplain as [_ Hitems].
      eapply Forall_impl; [exact Hitems|]. intros child. apply IH.
    + apply no_markers_pairs in Hplain as [_ Hpairs].
      apply Forall_fmap.
      eapply Forall_impl; [exact Hpairs|]. intros pair. apply IH.
Qed.

Lemma no_markers_run_generators queue :
  Forall (λ g, no_markers g = true) queue →
  run_generators (include self) (construct_sequence self)
                 (construct_mapping self) queue
  = run_generators no_constructor ret ret queue.
Proof.
  induction 1 as [|n queue Hn _ IH]; simpl; [done|].
  rewrite no_markers_generator by done. by rewrite IH.
Qed.

Lemma no_markers_node n :
  no_markers n = true →
  construct_node (include self) (construct_sequence self)
                 (construct_mapping self) n
  = construct_node no_constructor ret ret n.
Proof.
  induction n as [s|attribute_path|items IH|pairs IH] using node_ind';
    intros Hplain; try done.
  - apply no_markers_items in Hplain as [Hnot Hitems]. simpl.
    apply no_markers_sequence; try done.
    eapply Forall_impl; [apply Forall_and; split; [exact IH | exact Hitems]|].
    intros child [Hchild Hc]. by apply Hchild.
  - apply no_markers_pairs in Hplain as [Hkeys Hpairs]. simpl.
    apply no_markers_mapping; try done.
    eapply Forall_impl; [apply Forall_and; split; [exact IH | exact Hpairs]|].
    intros pair [Hchild Hc]. by apply Hchild.
Qed.

Lemma no_markers_plain n :
  no_markers n = true →
  Loader_construct_object self n = yaml_Loader_construct_object n.
Proof.
  intros Hplain.
  unfold Loader_construct_object, yaml_Loader_construct_object,
    construct_document.
  rewrite no_markers_shallow, no_markers_node by done.
  rewrite no_markers_run_generators; [done|].
  unfold generators. apply Forall_concat, Forall_fmap, Forall_forall.
  intros depth _. by apply no_markers_generators_at.
Qed.

End plain_documents.

(** C7.  A document without include markers and without merge markers
    parses with the loader of [CreateYamlLoader] to what the plain loader
    of the engine gives, whatever the common data: the same object or the
    same exception, and no call to [_GetData]. *)
Theorem plain_document_parses_identically (compose : string → result node)
    (self : Loader) (text : string) (n : node) :
  compose text = Ok n → no_markers n = true →
  Loader_construct_object self n = ([], construct_object n)
  ∧ yaml_load_with compose self text = yaml_load compose text.
Proof.
  intros Hcompose Hplain.
  assert (Loader_construct_object self n = ([], construct_object n)) as Hsame
    by (by rewrite no_markers_plain, yaml_Loader_silent).
  split; [done|].
  unfold yaml_load_with, yaml_load. by rewrite Hcompose, Hsame.
Qed.

Lemma plain_document_parses_identically_witness :
  Loader_construct_object example_loader
    (MappingNode [("foo", MappingNode [("a", ScalarNode (SStr "b"));
                                       ("c", ScalarNode (SStr "d"))])])
  = ([], construct_object
           (MappingNode [("foo", MappingNode [("a", ScalarNode (SStr "b"));
                                              ("c", ScalarNode (SStr "d"))])]))
  ∧ yaml_load_with example_compose example_loader "foo: {a: b, c: d}"
    = yaml_load example_compose "foo: {a: b, c: d}".
Proof.
  apply (plain_document_parses_identically example_compose example_loader
           "foo: {a: b, c: d}").
  - reflexivity.
  - reflexivity.
Defined.

(** *** Reading the common data *)

(** C4, as amended.  Each call of [CreateYamlLoader] (one for every
    command file that is loaded) tests whether the directory of the file
    has an [__init__.yaml], and reads and parses it once when it has one
    and not at all when it has none; the loader it returns holds the
    document.  Without the file, the loader is created, without error,
    with [None] as common data: it parses a document without markers as
    the plain loader does, and raises a [LayoutException] on every call to
    [_GetData]. *)
Theorem CreateYamlLoader_reads_common_data_once
    (compose : string → result node) (files : gmap string string)
    (impl_path : string) :
  let common_file_path :=
    os_path_join (os_path_dirname impl_path) "__init__.yaml" in
  let orphan := {| impl_path := impl_path; common_data := VNone |} in
  match files !! common_file_path with
  | Some text =>
      (CreateYamlLoader compose files impl_path).1
      = [CallExists common_file_path; CallGetData common_file_path;
         CallYamlLoad text]
      ∧ (CreateYamlLoader compose files impl_path).2
        = match compose text with
          | Ok n =>
              match construct_object n with
              | Ok data =>
                  Ok {| impl_path := impl_path; common_data := data |}
              | Raise e => Raise e
              end
          | Raise e => Raise e
          end
  | None =>
      CreateYamlLoader compose files impl_path
      = ([CallExists common_file_path], Ok orphan)
      ∧ (∀ n, no_markers n = true →
              Loader_construct_object orphan n = ([], construct_object n))
      ∧ (∀ attribute_path,
           _GetData_result orphan attribute_path
           = Raise (LayoutException (no_common_data_msg impl_path)))
  end.
Proof.
  intros common_file_path orphan.
  unfold CreateYamlLoader. fold common_file_path.
  unfold path_exists, GetData, yaml_load.
  destruct (files !! common_file_path) as [text|] eqn:Hfile.
  - rewrite bool_decide_eq_true_2 by (by eexists).
    unfold bind, ret.
    destruct (compose text) as [n|e]; [|done].
    by destruct (construct_object n).
  - rewrite bool_decide_eq_false_2 by (by intros [? ?]).
    split; [done|]. split; [|done].
    intros n Hplain. by rewrite no_markers_plain, yaml_Loader_silent.
Qed.

(** C4, as stated, fails: in a session that loads two command files of
    one directory, the common data of the directory is read and parsed
    twice, once for each file. *)
Lemma common_data_is_reloaded_per_file :
  let session :=
    loading_session example_compose example_files
      ["surface/compute/list.yaml"; "surface/compute/describe.yaml"] in
  session.2
  = Ok [VList [VDict {[ "a" := VStr "b"; "c" := VStr "d"; "i" := VStr "j" ]}];
        VList [VDict {[ "bar" := VStr "b" ]}]]
  ∧ reads_of "surface/compute/__init__.yaml" session.1 = 2
  ∧ parses_of "foo: {a: b, c: d}" session.1 = 2
  ∧ ¬ (reads_of "surface/compute/__init__.yaml" session.1 ≤ 1)%nat.
Proof.
  vm_compute. repeat split; try reflexivity. lia.
Qed.

Lemma CreateYamlLoader_reads_common_data_once_witness :
  (CreateYamlLoader example_compose example_files
     "surface/compute/list.yaml").1
  = [CallExists "surface/compute/__init__.yaml";
     CallGetData "surface/compute/__init__.yaml";
     CallYamlLoad "foo: {a: b, c: d}"]
  ∧ CreateYamlLoader example_compose ∅ "surface/compute/list.yaml"
    = ([CallExists "surface/compute/__init__.yaml"], Ok orphan_loader).
Proof.
  split.
  - exact (proj1 (CreateYamlLoader_reads_common_data_once example_compose
                    example_files "surface/compute/list.yaml")).
  - exact (proj1 (CreateYamlLoader_reads_common_data_once example_compose
                    ∅ "surface/compute/list.yaml")).
Defined.

(** * Further properties *)

(** ** The release-track resolver *)

Section resolver_outcomes.
Context `{Countable ReleaseTrack}.
Variable track_id : ReleaseTrack → string.
Variable track_str : ReleaseTrack → string.
Variable set_iter : gset ReleaseTrack → list ReleaseTrack.
Context {Impl : Type}.
Local Abbreviation candidate := (Impl * gset ReleaseTrack)%type.
Implicit Types implementations : list candidate.
Implicit Types t expected_track : ReleaseTrack.

Lemma pairwise_disjoint_Permutation implementations implementations' :
  implementations ≡ₚ implementations' →
  pairwise_disjoint implementations → pairwise_disjoint implementations'.
Proof.
  induction 1 as [|c l l' Hp IH|c1 c2 l|l1 l2 l3 _ IH1 _ IH2].
  - done.
  - rewrite !pairwise_disjoint_cons. intros [Hc Hd]. split; [|by apply IH].
    intros c' Hc'. apply Hc. by rewrite Hp.
  - rewrite !pairwise_disjoint_cons. intros (Hc2 & Hc1 & Hd).
    split; [|split; [|done]].
    + intros c' [->|Hc']%elem_of_cons.
      * symmetry. apply Hc2. left.
      * by apply Hc1.
    + intros c' Hc'. apply Hc2. by right.
  - intros Hd. by apply IH2, IH1.
Qed.

(** The conflict check passes only on non-empty, pairwise disjoint track
    sets that are disjoint from the tracks already implemented. *)
Lemma check_conflicts_Ok_inv impl_file (implemented : gset ReleaseTrack)
    implementations u :
  check_conflicts track_str set_iter impl_file implemented implementations = Ok u →
  Forall (λ c : candidate, c.2 ≠ ∅) implementations
  ∧ (∀ c, c ∈ implementations → c.2 ## implemented)
  ∧ pairwise_disjoint implementations.
Proof.
  revert implemented.
  induction implementations as [|[impl vt] l IH]; intros implemented Hcheck.
  - split; [constructor|]. split; [by intros c ?%not_elem_of_nil|].
    by intros i j ci cj _ ?.
  - simpl in Hcheck. case_bool_decide as Hvt; [done|].
    case_bool_decide as Hdup; [|done].
    destruct (IH _ Hcheck) as (Hne & Hacc & Hd).
    split; [by constructor|]. split.
    + intros c [->|Hc]%elem_of_cons; simpl; [set_solver|].
      specialize (Hacc c Hc). set_solver.
    + apply pairwise_disjoint_cons. split; [|done].
      intros c Hc. specialize (Hacc c Hc). simpl. set_solver.
Qed.

Lemma check_conflicts_raises_LayoutException impl_file
    (implemented : gset ReleaseTrack) implementations :
  match check_conflicts track_str set_iter impl_file implemented implementations with
  | Ok _ => True
  | Raise e => ∃ msg, e = LayoutException msg
  end.
Proof.
  revert implemented.
  induction implementations as [|[impl vt] l IH]; intros implemented; simpl;
    [done|].
  case_bool_decide; [by eexists|]. case_bool_decide; [apply IH | by eexists].
Qed.

(** X1.  A producer that the resolver returns is the producer of a
    candidate of the list, and this candidate claims the requested track,
    or is the only candidate and declares no track. *)
Theorem resolve_returns_a_valid_candidate (impl_file : string)
    expected_track implementations (impl : Impl) :
  _ExtractReleaseTrackImplementation track_id track_str set_iter impl_file
    expected_track implementations = Ok impl →
  ∃ valid_tracks : gset ReleaseTrack,
    (impl, valid_tracks) ∈ implementations
    ∧ (expected_track ∈ valid_tracks
       ∨ (valid_tracks = ∅ ∧ implementations = [(impl, valid_tracks)])).
Proof.
  intros Hresolve.
  destruct (decide (length implementations = 1)) as [Hone|Hmany].
  - destruct implementations as [|[impl' vt] [|??]]; try done.
    simpl in Hresolve.
    destruct (bool_decide (vt = ∅)) eqn:Hvt; simpl in Hresolve.
    + apply bool_decide_eq_true in Hvt. simplify_eq.
      exists ∅. split; [left | by right].
    + case_bool_decide as Hin; [|done]. simplify_eq.
      exists vt. split; [left | by left].
  - rewrite (resolve_multi track_id track_str set_iter) in Hresolve by done.
    destruct (check_conflicts _ _ _ _); [|done].
    destruct (filter _ implementations) as [|[impl' vt] [|??]] eqn:Hfilter;
      try done.
    simpl in Hresolve. simplify_eq.
    assert ((impl, vt) ∈ filter (λ c : candidate, expected_track ∈ c.2)
                                implementations) as Hin
      by (rewrite Hfilter; left).
    apply list_elem_of_filter in Hin as [Ht Hin].
    exists vt. split; [done | by left].
Qed.

(** X2.  On a list that is not a single candidate, the resolver raises a
    [LayoutException] exactly when some candidate declares no track or two
    candidates share a track. *)
Theorem resolve_layout_error_iff_conflict (impl_file : string)
    expected_track implementations :
  length implementations ≠ 1 →
  is_LayoutException
    (_ExtractReleaseTrackImplementation track_id track_str set_iter impl_file
       expected_track implementations) = false
  ↔ Forall (λ c : candidate, c.2 ≠ ∅) implementations
    ∧ pairwise_disjoint implementations.
Proof.
  intros Hmany. rewrite (resolve_multi track_id track_str set_iter) by done.
  split.
  - intros Hno.
    pose proof (check_conflicts_raises_LayoutException impl_file ∅
                  implementations) as Hraise.
    destruct (check_conflicts _ _ _ _ _) as [u|e] eqn:Hcheck.
    + apply check_conflicts_Ok_inv in Hcheck as (? & _ & ?). done.
    + destruct Hraise as [msg ->]. done.
  - intros [Hne Hd].
    assert (check_conflicts track_str set_iter impl_file ∅ implementations
            = Ok tt)
      as -> by (apply (check_conflicts_ok track_id); [done | set_solver | done]).
    by destruct (filter _ _).*1 as [|? [|??]].
Qed.


(** X3.  A candidate that declares no track is accepted only alone: in a
    list of more than one candidate it makes the resolver raise a
    [LayoutException], whatever the requested track and the order. *)
Theorem resolve_rejects_wildcard_among_several (impl_file : string)
    expected_track implementations (c : candidate) :
  1 < length implementations →
  c ∈ implementations → c.2 = ∅ →
  is_LayoutException
    (_ExtractReleaseTrackImplementation track_id track_str set_iter impl_file
       expected_track implementations) = true.
Proof.
  intros Hlen Hc Hempty.
  rewrite (resolve_multi track_id track_str set_iter) by lia.
  pose proof (check_conflicts_raises_LayoutException impl_file ∅
                implementations) as Hraise.
  destruct (check_conflicts _ _ _ _ _) as [u|e] eqn:Hcheck.
  - apply check_conflicts_Ok_inv in Hcheck as (Hne & _ & _).
    rewrite Forall_forall in Hne. by destruct (Hne c Hc).
  - by destruct Hraise as [msg ->].
Qed.


(** X4.  Unless it is a [LayoutException], the outcome of the resolver
    does not depend on the order of the candidates. *)
Theorem resolve_is_order_independent (impl_file : string) expected_track
    implementations reordered :
  reordered ≡ₚ implementations →
  is_LayoutException
    (_ExtractReleaseTrackImplementation track_id track_str set_iter impl_file
       expected_track implementations) = false →
  _ExtractReleaseTrackImplementation track_id track_str set_iter impl_file
    expected_track reordered
  = _ExtractReleaseTrackImplementation track_id track_str set_iter impl_file
      expected_track implementations.
Proof.
  intros Hp Hno.
  destruct (decide (length implementations = 1)) as [Hone|Hmany].
  - destruct implementations as [|c [|??]]; try done.
    by apply Permutation_singleton_r in Hp as ->.
  - assert (length reordered ≠ 1) as Hmany' by (by rewrite Hp).
    rewrite (resolve_multi track_id track_str set_iter) in Hno |- * by done.
    rewrite (resolve_multi track_id track_str set_iter _ _ implementations)
      by done.
    pose proof (check_conflicts_raises_LayoutException impl_file ∅
                  implementations) as Hraise.
    destruct (check_conflicts _ _ _ _ implementations) as [u|e] eqn:Hcheck;
      [|by destruct Hraise as [msg ->]].
    apply check_conflicts_Ok_inv in Hcheck as (Hne & _ & Hd).
    assert (check_conflicts track_str set_iter impl_file ∅ reordered = Ok tt)
      as ->.
    { apply (check_conflicts_ok track_id); [by rewrite Hp | set_solver |].
      by apply (pairwise_disjoint_Permutation implementations). }
    assert (Hf : (filter (λ c : candidate, expected_track ∈ c.2) reordered).*1
                 ≡ₚ (filter (λ c : candidate, expected_track ∈ c.2)
                            implementations).*1) by (by rewrite Hp).
    destruct (filter _ implementations).*1 as [|impl [|??]].
    + by apply Permutation_nil_r in Hf as ->.
    + by apply Permutation_singleton_r in Hf as ->.
    + apply Permutation_length in Hf.
      by destruct (filter _ reordered).*1 as [|? [|??]].
Qed.


End resolver_outcomes.

Lemma resolve_layout_error_iff_conflict_witness :
  is_LayoutException
    (_ExtractReleaseTrackImplementation example_id example_id elements
       "surface/compute/list.py" GA [(1, {[ALPHA]}); (2, {[BETA]})]) = false.
Proof.
  apply (resolve_layout_error_iff_conflict example_id example_id elements
           "surface/compute/list.py" GA [(1, {[ALPHA]}); (2, {[BETA]})]).
  - simpl. lia.
  - split.
    + repeat constructor; simpl; intros Heq.
      * assert (ALPHA ∈ (∅ : gset example_track)) as Hin
          by (rewrite <- Heq; set_solver).
        set_solver.
      * assert (BETA ∈ (∅ : gset example_track)) as Hin
          by (rewrite <- Heq; set_solver).
        set_solver.
    + intros [|[|i]] [|[|j]] ci cj Hij Hi Hj; simpl in *; simplify_eq;
        simpl; set_solver.
Defined.

Lemma resolve_rejects_wildcard_among_several_witness :
  is_LayoutException
    (_ExtractReleaseTrackImplementation example_id example_id elements
       "surface/compute/list.py" GA [(1, {[GA]}); (2, ∅)]) = true.
Proof.
  apply (resolve_rejects_wildcard_among_several example_id example_id elements
           "surface/compute/list.py" GA [(1, {[GA]}); (2, ∅)] (2, ∅)).
  - simpl. lia.
  - right. left.
  - reflexivity.
Defined.

Lemma resolve_is_order_independent_witness :
  _ExtractReleaseTrackImplementation example_id example_id elements
    "surface/compute/list.py" BETA [(2, {[BETA]}); (1, {[ALPHA]})]
  = _ExtractReleaseTrackImplementation example_id example_id elements
      "surface/compute/list.py" BETA [(1, {[ALPHA]}); (2, {[BETA]})].
Proof.
  apply (resolve_is_order_independent example_id example_id elements
           "surface/compute/list.py" BETA
           [(1, {[ALPHA]}); (2, {[BETA]})] [(2, {[BETA]}); (1, {[ALPHA]})]).
  - apply perm_swap.
  - vm_compute. reflexivity.
Defined.

Lemma resolve_returns_a_valid_candidate_witness :
  ∃ valid_tracks : gset example_track,
    (2, valid_tracks) ∈ [(1, {[ALPHA]}); (2, {[BETA; GA]})]
    ∧ (BETA ∈ valid_tracks
       ∨ (valid_tracks = ∅
          ∧ [(1, {[ALPHA]}); (2, {[BETA; GA]})] = [(2, valid_tracks)])).
Proof.
  apply (resolve_returns_a_valid_candidate example_id example_id elements
           "surface/compute/list.py" BETA
           [(1, {[ALPHA]}); (2, {[BETA; GA]})] 2).
  vm_compute. reflexivity.
Defined.

(** ** Inspection of a native module *)

Section module_outcomes.
Context `{Countable ReleaseTrack}.
Implicit Types module_attributes : list (module_attribute ReleaseTrack).

Lemma collect_ignores_untagged module_attributes
    (commands groups : list (pyclass ReleaseTrack)) :
  collect (filter (λ a, command_tagged a || group_tagged a)
                  module_attributes) commands groups
  = collect module_attributes commands groups.
Proof.
  revert commands groups.
  induction module_attributes as [|[c0|] l IH]; intros commands groups;
    [done| |].
  - rewrite filter_cons. simpl.
    destruct (issubclass_Command c0) eqn:Hc;
      [|destruct (issubclass_Group c0) eqn:Hg]; simpl.
    + by rewrite Hc, IH.
    + by rewrite Hc, Hg, IH.
    + apply IH.
  - rewrite filter_cons. simpl. apply IH.
Qed.

(** X5.  When [_ImplementationsFromModule] returns, it returns the
    classes of the module that carry the expected tag, in the order of the
    module and each with its own [ValidReleaseTracks()]; there is at least
    one, and the module has no class of the other tag. *)
Theorem module_implementations_are_the_tagged_classes (mod_file : string)
    module_attributes (is_command : bool)
    (implementations : list (pyclass ReleaseTrack * gset ReleaseTrack)) :
  _ImplementationsFromModule mod_file module_attributes is_command
  = Ok implementations →
  TypeObject <$> implementations.*1
  = filter (λ a, (if is_command then command_tagged a else group_tagged a)
                 = true) module_attributes
  ∧ Forall (λ i, i.2 = ValidReleaseTracks i.1) implementations
  ∧ implementations ≠ []
  ∧ ∀ a, a ∈ module_attributes →
         (if is_command then group_tagged a else command_tagged a) = false.
Proof.
  unfold _ImplementationsFromModule.
  destruct (collect_tagged module_attributes [] []) as [Hcommands Hgroups].
  destruct (collect module_attributes [] []) as [commands groups].
  simpl in Hcommands, Hgroups.
  assert (Hnone : ∀ (tagged : module_attribute ReleaseTrack → bool) a,
             filter (λ a, tagged a = true) module_attributes = [] →
             a ∈ module_attributes → tagged a = false).
  { intros tagged a Hfilter Ha. destruct (tagged a) eqn:Ht; [|done].
    assert (a ∈ filter (λ a, tagged a = true) module_attributes) as Hin
      by (by apply list_elem_of_filter).
    rewrite Hfilter in Hin. by apply not_elem_of_nil in Hin. }
  destruct is_command.
  - case_bool_decide as Hg; [done|]. case_bool_decide as Hc; [done|].
    intros [= <-]. subst groups.
    rewrite <- !list_fmap_compose. split; [done|].
    split; [by apply Forall_fmap, Forall_true|].
    split; [by destruct commands|].
    intros a. by apply Hnone.
  - case_bool_decide as Hc; [done|]. case_bool_decide as Hg; [done|].
    intros [= <-]. subst commands.
    rewrite <- !list_fmap_compose. split; [done|].
    split; [by apply Forall_fmap, Forall_true|].
    split; [by destruct groups|].
    intros a. by apply Hnone.
Qed.

(** X6.  [_ImplementationsFromModule] looks only at the classes that
    derive from [base.Command] or [base.Group]: removing every other value
    of the module changes neither what it returns nor what it raises. *)
Theorem module_inspection_ignores_other_values (mod_file : string)
    module_attributes (is_command : bool) :
  _ImplementationsFromModule mod_file
    (filter (λ a, command_tagged a || group_tagged a) module_attributes)
    is_command
  = _ImplementationsFromModule mod_file module_attributes is_command.
Proof.
  unfold _ImplementationsFromModule. by rewrite collect_ignores_untagged.
Qed.

End module_outcomes.

Lemma module_implementations_are_the_tagged_classes_witness :
  let List :=
    {| __name__ := "List"; issubclass_Command := true;
       issubclass_Group := false; ValidReleaseTracks := {[GA]} |} in
  let ListBeta :=
    {| __name__ := "ListBeta"; issubclass_Command := true;
       issubclass_Group := false; ValidReleaseTracks := {[BETA]} |} in
  TypeObject <$> [(List, ({[GA]} : gset example_track));
                  (ListBeta, {[BETA]})].*1
  = filter (λ a, command_tagged a = true)
           [OtherObject; TypeObject List; OtherObject; TypeObject ListBeta].
Proof.
  intros List ListBeta.
  apply (module_implementations_are_the_tagged_classes
           "surface/compute/list.py"
           [OtherObject; TypeObject List; OtherObject; TypeObject ListBeta]
           true [(List, ({[GA]} : gset example_track)); (ListBeta, {[BETA]})]).
  reflexivity.
Defined.

(** ** Discovery of the elements of a group *)

Lemma generate_elements_stops_at_capital impl_path elements before name
    after :
  Forall (λ n, has_capital n = false) before → has_capital name = true →
  generate_elements impl_path elements (before ++ name :: after)
  = Raise (LayoutException (capital_letters_msg name)).
Proof.
  intros Hbefore Hname. revert elements.
  induction Hbefore as [|n before Hn _ IH]; intros elements; simpl.
  - by rewrite Hname.
  - rewrite Hn. apply IH.
Qed.

Lemma generate_elements_groups impl_path elements names :
  Forall (λ n, has_capital n = false) names →
  ∃ elements',
    generate_elements impl_path elements names = Ok elements'
    ∧ ∀ k,
        default [] (elements' !! k)
        = default [] (elements !! k)
          ++ (os_path_join impl_path
                <$> filter (λ n, cli_name_of n = k) names)
        ∧ (is_Some (elements' !! k) ↔
           is_Some (elements !! k) ∨ ∃ n, n ∈ names ∧ cli_name_of n = k).
Proof.
  intros Hnames. revert elements.
  induction Hnames as [|n names Hn _ IH]; intros elements; simpl.
  - exists elements. split; [done|]. intros k. rewrite app_nil_r.
    split; [done|]. split; [by left|].
    intros [?|(n & ?%not_elem_of_nil & _)]; done.
  - rewrite Hn.
    destruct (IH (<[cli_name_of n :=
                     default [] (elements !! cli_name_of n)
                     ++ [os_path_join impl_path n]]> elements))
      as (elements' & -> & Hspec).
    exists elements'. split; [done|]. intros k.
    destruct (Hspec k) as [-> ->]. rewrite filter_cons.
    destruct (decide (cli_name_of n = k)) as [<-|Hk].
    + rewrite lookup_insert_eq. simpl. rewrite <- app_assoc. split; [done|].
      split; [|by eauto]. intros _. right. exists n. by split; [left|].
    + rewrite lookup_insert_ne by done. split; [done|]. split.
      * intros [?|(n' & Hn' & ?)]; [by left|]. right. exists n'.
        by split; [right|].
      * intros [?|(n' & [->|Hn']%elem_of_cons & ?)]; [by left|done|].
        right. by exists n'.
Qed.

Lemma generate_elements_nonempty impl_path elements names elements' :
  generate_elements impl_path elements names = Ok elements' →
  (∀ k l, elements !! k = Some l → l ≠ []) →
  ∀ k l, elements' !! k = Some l → l ≠ [].
Proof.
  revert elements. induction names as [|n names IH]; intros elements; simpl.
  - by intros [= ->].
  - destruct (has_capital n); [done|]. intros Hgen Hne. eapply IH; [done|].
    intros k l. destruct (decide (cli_name_of n = k)) as [<-|Hk].
    + rewrite lookup_insert_eq. intros [= <-].
      by destruct (default [] (elements !! cli_name_of n)).
    + rewrite lookup_insert_ne by done. apply Hne.
Qed.

(** X7.  [_GenerateElementInfo] rejects the first name that has a capital
    letter with a [LayoutException] that gives this name, whatever the
    names after it. *)
Theorem GenerateElementInfo_rejects_capital_letters
    (impl_path : string) (before : list string) (name : string)
    (after : list string) :
  Forall (λ n, has_capital n = false) before → has_capital name = true →
  _GenerateElementInfo impl_path (before ++ name :: after)
  = Raise (LayoutException
             ("Commands and groups cannot have capital letters: "
                +:+ name +:+ ".")).
Proof. apply generate_elements_stops_at_capital. Qed.

Lemma GenerateElementInfo_rejects_capital_letters_witness :
  _GenerateElementInfo "surface/compute" ["list.yaml"; "sshKeys"; "Z"]
  = Raise (LayoutException
             "Commands and groups cannot have capital letters: sshKeys.").
Proof.
  apply (GenerateElementInfo_rejects_capital_letters "surface/compute"
           ["list.yaml"] "sshKeys" ["Z"]).
  - repeat constructor.
  - reflexivity.
Defined.

(** X8.  On names without capital letters, [_GenerateElementInfo] returns
    a dictionary in which every element name (a name without its [.yaml]
    extension) holds the paths of all the names that give it, in the order
    of the names, and in which no other key occurs: a module [foo] and a
    file [foo.yaml] end in one entry. *)
Theorem GenerateElementInfo_groups_paths_by_element_name
    (impl_path : string) (names : list string) :
  Forall (λ n, has_capital n = false) names →
  ∃ elements : gmap string (list string),
    _GenerateElementInfo impl_path names = Ok elements
    ∧ ∀ k,
        elements !! k
        = match filter (λ n, cli_name_of n = k) names with
          | [] => None
          | found => Some (os_path_join impl_path <$> found)
          end.
Proof.
  intros Hnames.
  destruct (generate_elements_groups impl_path ∅ names Hnames)
    as (elements & Hgen & Hspec).
  exists elements. split; [done|]. intros k.
  destruct (Hspec k) as [Hpaths Hsome].
  rewrite lookup_empty in Hpaths, Hsome. simpl in Hpaths.
  destruct (filter (λ n, cli_name_of n = k) names) as [|n found] eqn:Hfilter.
  - destruct (elements !! k) as [l|] eqn:Hk; [|done].
    destruct (proj1 Hsome) as [[? [=]]|(n & Hn & Hcli)]; [by eexists|].
    assert (n ∈ filter (λ n, cli_name_of n = k) names) as Hin
      by (by apply list_elem_of_filter).
    rewrite Hfilter in Hin. by apply not_elem_of_nil in Hin.
  - destruct (proj2 Hsome) as [l Hl].
    { right. exists n.
      assert (n ∈ filter (λ n, cli_name_of n = k) names) as Hin
        by (rewrite Hfilter; left).
      apply list_elem_of_filter in Hin as [??]. done. }
    rewrite Hl in Hpaths |- *. simpl in Hpaths. by rewrite Hpaths.
Qed.

Lemma GenerateElementInfo_groups_paths_by_element_name_witness :
  ∃ elements : gmap string (list string),
    _GenerateElementInfo "surface/compute" ["list"; "ssh"; "list.yaml"]
    = Ok elements
    ∧ ∀ k,
        elements !! k
        = match filter (λ n, cli_name_of n = k)
                       ["list"; "ssh"; "list.yaml"] with
          | [] => None
          | found => Some (os_path_join "surface/compute" <$> found)
          end.
Proof.
  apply (GenerateElementInfo_groups_paths_by_element_name "surface/compute"
           ["list"; "ssh"; "list.yaml"]).
  repeat constructor.
Defined.

Example GenerateElementInfo_example :
  _GenerateElementInfo "surface/compute" ["list"; "ssh"; "list.yaml"]
  = Ok {[ "list" := ["surface/compute/list"; "surface/compute/list.yaml"];
          "ssh" := ["surface/compute/ssh"] ]}.
Proof. vm_compute. reflexivity. Qed.

(** ** Loading a command or a group *)

Lemma string_length_app (s t : string) :
  String.length (s +:+ t) = String.length s + String.length t.
Proof.
  induction s as [|c s IH]; [done|].
  change (String c s +:+ t) with (String c (s +:+ t)). simpl. by rewrite IH.
Qed.

Lemma string_app_inv_tail (s1 s2 t : string) :
  s1 +:+ t = s2 +:+ t → s1 = s2.
Proof.
  revert s2. induction s1 as [|c1 s1 IH]; intros [|c2 s2] Heq.
  - done.
  - apply (f_equal String.length) in Heq.
    rewrite !string_length_app in Heq. simpl in Heq. lia.
  - apply (f_equal String.length) in Heq.
    rewrite !string_length_app in Heq. simpl in Heq. lia.
  - change (String c1 (s1 +:+ t) = String c2 (s2 +:+ t)) in Heq.
    injection Heq as -> Heq. f_equal. by apply IH.
Qed.

(** X9.  For one element of the tree, two CLI loaders with different
    construction identifiers import its module under different names. *)
Theorem name_to_give_separates_constructions
    (construction_id1 construction_id2 : string) (path : list string) :
  construction_id1 ≠ construction_id2 →
  name_to_give construction_id1 path ≠ name_to_give construction_id2 path.
Proof.
  intros Hne Heq. apply Hne. unfold name_to_give in Heq.
  apply (inj (String.app _)) in Heq. by apply string_app_inv_tail in Heq.
Qed.

Lemma name_to_give_separates_constructions_witness :
  name_to_give "1" ["compute"; "ssh-keys"]
  ≠ name_to_give "2" ["compute"; "ssh-keys"].
Proof.
  apply (name_to_give_separates_constructions "1" "2"
           ["compute"; "ssh-keys"]).
  discriminate.
Defined.

Example name_to_give_example :
  name_to_give "1" ["compute"; "ssh-keys"; "list"]
  = "__calliope__command__.1.compute.ssh_keys.list".
Proof. reflexivity. Qed.

Section loading_outcomes.
Context `{Countable ReleaseTrack}.
Variable track_id : ReleaseTrack → string.
Variable track_str : ReleaseTrack → string.
Variable set_iter : gset ReleaseTrack → list ReleaseTrack.
Variable FromId : object → result ReleaseTrack.
Variable GetModuleFromPath :
  string → string → result (string * list (module_attribute ReleaseTrack)).
Variable compose : string → result node.
Variable files : gmap string string.
Local Abbreviation translator_type :=
  (list string → object → result (pyclass ReleaseTrack)).
Local Abbreviation load :=
  (LoadCommonType track_id track_str set_iter FromId GetModuleFromPath compose
     files).
Local Abbreviation load_all :=
  (load_implementations FromId GetModuleFromPath compose files).

Lemma bind_lift_Raise {E A B} (e : exception) (f : A → W E B) :
  bind (lift (Raise e)) f = ([], Raise e).
Proof. done. Qed.

Lemma bind_lift_Ok {E A B} (a : A) (f : A → W E B) :
  bind (lift (Ok a)) f = f a.
Proof. apply (bind_ret_l a f). Qed.

(** X10.  Every list of paths that [FindSubElements] returns for an
    element is non-empty, so that [LoadCommonType] finds its first path;
    and [FindSubElements] returns only for a single implementation
    path. *)
Theorem discovered_elements_are_loadable
    (ListPackage : string → list string * list string)
    (impl_paths path : list string)
    (groups commands : gmap string (list string)) :
  FindSubElements ListPackage impl_paths path = Some (Ok (groups, commands)) →
  length impl_paths = 1
  ∧ ∀ k l, groups !! k = Some l ∨ commands !! k = Some l →
      l ≠ []
      ∧ ∀ path' release_track construction_id is_command
          (yaml_command_translator : option translator_type),
          is_Some (load l path' release_track construction_id is_command
                        yaml_command_translator).
Proof.
  unfold FindSubElements. case_bool_decide as Hlen; [done|].
  destruct impl_paths as [|impl_path [|??]]; [done| |simpl in Hlen; lia].
  destruct (ListPackage impl_path) as [group_names command_names].
  destruct (_GenerateElementInfo impl_path group_names) as [g|?] eqn:Hg;
    [|done].
  destruct (_GenerateElementInfo impl_path command_names) as [c|?] eqn:Hc;
    [|done].
  intros [= <- <-]. split; [done|]. intros k l Hl.
  assert (l ≠ []) as Hne.
  { assert (∀ k' l', (∅ : gmap string (list string)) !! k' = Some l'
                       → l' ≠ []) as Hempty
      by (intros ?? Hk; by rewrite lookup_empty in Hk).
    destruct Hl as [Hl|Hl].
    - exact (generate_elements_nonempty _ _ _ _ Hg Hempty k l Hl).
    - exact (generate_elements_nonempty _ _ _ _ Hc Hempty k l Hl). }
  split; [done|]. intros. by destruct l.
Qed.

(** With [is_command] false, the loop calls the importer only, and raises
    when it meets a [.yaml] path. *)
Lemma load_implementations_of_group path construction_id
    (yaml_command_translator : option translator_type) implementations
    impl_paths :
  Forall (imports_of impl_paths path construction_id)
    (load_all path construction_id false yaml_command_translator
              implementations impl_paths).1
  ∧ ((∃ impl_file, impl_file ∈ impl_paths
                   ∧ endswith ".yaml" impl_file = true) →
     ∃ e, (load_all path construction_id false yaml_command_translator
                    implementations impl_paths).2 = Raise e).
Proof.
  revert implementations.
  induction impl_paths as [|impl_file rest IH]; intros implementations;
    simpl.
  - split; [constructor|]. by intros (? & ?%not_elem_of_nil & _).
  - destruct (endswith ".yaml" impl_file) eqn:Hyaml; simpl.
    + split; [constructor | by eexists].
    + assert (Hfirst : imports_of (impl_file :: rest) path construction_id
                (CallGetModuleFromPath (name_to_give construction_id path)
                                       impl_file))
        by (exists impl_file; split; [left | done]).
      rewrite bind_calls, bind_result. unfold _GetModuleFromPath. simpl.
      destruct (GetModuleFromPath _ _) as [module|e0]; simpl.
      * destruct (_ImplementationsFromModule _ _ _) as [found|e];
          [rewrite bind_lift_Ok | rewrite bind_lift_Raise].
        -- destruct (IH (implementations
                           ++ (prod_map ReturnClass id <$> found)))
             as [Hcalls Hraise].
           split.
           ++ constructor; [done|]. eapply Forall_impl; [exact Hcalls|].
              intros call (f & Hf & Hpy & ->). exists f.
              split; [by right | done].
           ++ intros (f & [->|Hf]%elem_of_cons & Hyaml'); [congruence|].
              apply Hraise. by exists f.
        -- simpl. split; [constructor; [done | constructor] | by eauto].
      * destruct (is_Exception e0); simpl;
          (split; [constructor; [done | constructor] | by eauto]).
Qed.

(** X11.  Loading a group never tests for, reads or parses a [.yaml]
    file: the only calls it makes are calls of the importer, on
    implementation paths that are not [.yaml] files; and it fails when one
    of the implementation paths is a [.yaml] file. *)
Theorem LoadCommonType_group_reads_no_yaml (impl_paths path : list string)
    (release_track : ReleaseTrack) (construction_id : string)
    (yaml_command_translator : option translator_type)
    (loading : IO (pyclass ReleaseTrack)) :
  load impl_paths path release_track construction_id false
       yaml_command_translator = Some loading →
  Forall (λ call, ∃ impl_file,
            impl_file ∈ impl_paths ∧ endswith ".yaml" impl_file = false
            ∧ call = CallGetModuleFromPath
                       (name_to_give construction_id path) impl_file)
         loading.1
  ∧ (∀ path', reads_of path' loading.1 = 0)
  ∧ (∀ text, parses_of text loading.1 = 0)
  ∧ ((∃ impl_file, impl_file ∈ impl_paths
                   ∧ endswith ".yaml" impl_file = true) →
     ∃ e, loading.2 = Raise e).
Proof.
  unfold LoadCommonType.
  destruct impl_paths as [|impl_file rest] eqn:Hpaths; [done|].
  rewrite <- Hpaths. intros [= <-].
  destruct (load_implementations_of_group path construction_id
              yaml_command_translator [] impl_paths) as [Hcalls Hraise].
  assert (Hnone : ∀ calls : list io_event,
            Forall (imports_of impl_paths path construction_id) calls →
            (∀ path', reads_of path' calls = 0)
            ∧ (∀ text, parses_of text calls = 0)).
  { intros calls Himports. rewrite Forall_forall in Himports.
    split; intros x; unfold reads_of, parses_of;
      (rewrite filter_none; [done|]); intros call Hcall;
      by destruct (Himports call Hcall) as (f & _ & _ & ->). }
  rewrite bind_calls, bind_result.
  destruct (load_all _ _ _ _ _ _) as [calls [implementations|e]];
    simpl in *.
  - destruct (_ExtractReleaseTrackImplementation _ _ _ _ _ _) as [impl|e];
      [rewrite bind_lift_Ok | rewrite bind_lift_Raise]; simpl;
      rewrite app_nil_r; (split; [done|]);
      destruct (Hnone calls Hcalls) as [Hreads Hparses];
      (split; [done|]); (split; [done|]);
      intros Hyaml; by destruct (Hraise Hyaml).
  - rewrite app_nil_r. split; [done|].
    destruct (Hnone calls Hcalls) as [Hreads Hparses].
    split; [done|]. split; [done | by eauto].
Qed.

(** X12.  A module that defines one command class and no group class
    loads, as a command, as this class when the class declares no release
    track or declares the requested one; otherwise loading raises
    [ReleaseTrackNotImplementedException]. *)
Theorem LoadCommonType_single_command_module (impl_file : string)
    (path : list string) (release_track : ReleaseTrack)
    (construction_id : string)
    (yaml_command_translator : option translator_type) (mod_file : string)
    (module_attributes : list (module_attribute ReleaseTrack))
    (c : pyclass ReleaseTrack) :
  endswith ".yaml" impl_file = false →
  GetModuleFromPath (name_to_give construction_id path) impl_file
  = Ok (mod_file, module_attributes) →
  filter (λ a, command_tagged a = true) module_attributes = [TypeObject c] →
  (∀ a, a ∈ module_attributes → group_tagged a = false) →
  load [impl_file] path release_track construction_id true
       yaml_command_translator
  = Some ([CallGetModuleFromPath (name_to_give construction_id path)
                                 impl_file],
          if bool_decide (ValidReleaseTracks c = ∅)
             || bool_decide (release_track ∈ ValidReleaseTracks c)
          then Ok c
          else Raise (ReleaseTrackNotImplementedException
                        (not_implemented_msg track_id release_track
                                             impl_file))).
Proof.
  intros Hyaml Himport Hcommands Hgroups.
  assert (_ImplementationsFromModule mod_file module_attributes true
          = Ok [(c, ValidReleaseTracks c)]) as Hfound.
  { unfold _ImplementationsFromModule.
    pose proof (proj1 (collect_tagged module_attributes [] [])) as Hc.
    pose proof (collect_groups_empty module_attributes Hgroups) as Hg.
    destruct (collect module_attributes [] []) as [commands groups].
    simpl in Hc, Hg. subst groups. rewrite Hcommands in Hc.
    destruct commands as [|c' [|??]]; try done.
    injection Hc as ->.
    rewrite bool_decide_eq_false_2 by (by intros []).
    by rewrite bool_decide_eq_false_2. }
  unfold LoadCommonType. simpl. rewrite Hyaml.
  unfold _GetModuleFromPath. rewrite Himport. simpl.
  unfold bind, lift, ret. simpl. rewrite Hfound. simpl.
  destruct (bool_decide (ValidReleaseTracks c = ∅)
            || bool_decide (release_track ∈ ValidReleaseTracks c)); done.
Qed.

(** X13.  A command file whose document is a single mapping without
    [release_tracks] loads, for every requested release track, as what
    the translator makes of this mapping. *)
Theorem LoadCommonType_single_yaml_entry (impl_file : string)
    (path : list string) (release_track : ReleaseTrack)
    (construction_id : string) (translate : translator_type)
    (calls : list io_event) (m : gmap string object) :
  endswith ".yaml" impl_file = true →
  load_command_data compose files impl_file = (calls, Ok (VList [VDict m])) →
  m !! "release_tracks" = None →
  load [impl_file] path release_track construction_id true (Some translate)
  = Some (calls, translate path (VDict m)).
Proof.
  intros Hyaml Hdata Htracks.
  unfold LoadCommonType. simpl. rewrite Hyaml, Hdata. simpl.
  unfold bind, lift, ret. simpl.
  unfold entry_tracks. rewrite Htracks. simpl.
  rewrite (bool_decide_eq_true_2 (∅ = ∅)) by done. simpl.
  by rewrite !app_nil_r.
Qed.

(** X14.  Without a translator, a command file is still read and parsed,
    and loading then raises the [CommandLoadFailure] of the missing
    translator, with the joined path of the command. *)
Theorem LoadCommonType_without_translator (impl_file : string)
    (rest path : list string) (release_track : ReleaseTrack)
    (construction_id : string) (calls : list io_event) (data : object) :
  endswith ".yaml" impl_file = true →
  load_command_data compose files impl_file = (calls, Ok data) →
  load (impl_file :: rest) path release_track construction_id true None
  = Some (calls,
          Raise (CommandLoadFailure (join "." path)
                   "No yaml command translator has been registered")).
Proof.
  intros Hyaml Hdata. unfold LoadCommonType. simpl. rewrite Hyaml, Hdata.
  unfold bind, lift. simpl. by rewrite app_nil_r.
Qed.

(** X15.  When the import of a module raises an exception that derives
    from [Exception], loading raises a [CommandLoadFailure] with the
    joined path of the element and the text of the exception; a
    [SystemExit] or a [KeyboardInterrupt] of the import is not caught and
    leaves [LoadCommonType] as it is.  In both cases the loading goes no
    further than this import. *)
Theorem LoadCommonType_wraps_import_failure (impl_file : string)
    (rest path : list string) (release_track : ReleaseTrack)
    (construction_id : string) (is_command : bool)
    (yaml_command_translator : option translator_type) (e : exception) :
  endswith ".yaml" impl_file = false →
  GetModuleFromPath (name_to_give construction_id path) impl_file
  = Raise e →
  load (impl_file :: rest) path release_track construction_id is_command
       yaml_command_translator
  = Some ([CallGetModuleFromPath (name_to_give construction_id path)
                                 impl_file],
          match e with
          | SystemExit _ | KeyboardInterrupt => Raise e
          | _ => Raise (CommandLoadFailure (join "." path)
                          (exception_str e))
          end).
Proof.
  intros Hyaml Himport. unfold LoadCommonType. simpl. rewrite Hyaml.
  unfold _GetModuleFromPath. rewrite Himport. by destruct e.
Qed.

End loading_outcomes.

(** ** The loader: includes and merges *)

Lemma get_attributes_descend impl_path attribute_path attributes
    (value found : object) :
  get_attributes impl_path attribute_path attributes value = Ok found
  ↔ descend value attributes = Some found.
Proof.
  revert value. induction attributes as [|attribute rest IH]; intros value;
    simpl.
  - split; by intros [= ->].
  - destruct value as [| | | | |m]; try done.
    destruct (m !! attribute) as [value'|]; simpl; [|done].
    destruct (truthy value'); [apply IH | done].
Qed.

Lemma descend_truthy (value found : object) attributes :
  attributes ≠ [] → descend value attributes = Some found →
  truthy found = true.
Proof.
  revert value. induction attributes as [|attribute rest IH]; intros value;
    [done|].
  intros _. simpl. destruct value as [| | | | |m]; try done.
  destruct (m !! attribute) as [value'|]; [|done].
  destruct (truthy value') eqn:Htruthy; [|done].
  destruct rest as [|attribute' rest]; [by intros [= <-]|].
  by apply IH.
Qed.

Lemma split_nonempty (sep : Ascii.ascii) (s : string) : split sep s ≠ [].
Proof.
  destruct s as [|c s]; simpl; [done|].
  destruct (Ascii.eqb c sep); [done|]. by destruct (split sep s).
Qed.

(** X16.  [_GetData] returns an object exactly when the common data is
    truthy and every dot-separated segment of the path, in turn, is found
    in a mapping and holds a truthy object; it then returns the object of
    the last segment. *)
Theorem GetData_follows_the_segments (self : Loader)
    (attribute_path : string) (found : object) :
  _GetData_result self attribute_path = Ok found
  ↔ truthy (common_data self) = true
    ∧ descend (common_data self) (split "." attribute_path) = Some found.
Proof.
  unfold _GetData_result. destruct (truthy (common_data self)).
  - rewrite get_attributes_descend. naive_solver.
  - naive_solver.
Qed.

(** X17.  An include never gives a falsy object: a scalar tagged
    [!COMMON] constructs to a truthy object or the parse raises, so that
    [0], [false], an empty text or an empty collection of the common data
    cannot be included. *)
Theorem include_is_never_falsy (self : Loader) (attribute_path : string)
    (calls : list string) (found : object) :
  Loader_construct_object self (IncludeNode attribute_path)
  = (calls, Ok found) →
  truthy found = true.
Proof.
  unfold Loader_construct_object, construct_document. simpl.
  unfold include, _GetData, bind, lift, ret. simpl.
  destruct (_GetData_result self attribute_path) as [v|e] eqn:Hfound;
    [|done].
  intros [= _ <-]. unfold _GetData_result in Hfound.
  destruct (truthy (common_data self)); [|done].
  apply get_attributes_descend in Hfound.
  eapply descend_truthy; [apply split_nonempty | done].
Qed.

Lemma include_is_never_falsy_witness : truthy (VStr "b") = true.
Proof.
  apply (include_is_never_falsy example_loader "foo.a" ["foo.a"] (VStr "b")).
  reflexivity.
Defined.

(** X18.  The merge of a mapping leaves alone the entries that the common
    data does not define: a key other than [_COMMON_] that no resolved
    mapping holds keeps what the mapping had for it. *)
Theorem merge_keeps_other_entries (self : Loader) (data : gmap string slot)
    s (merged : list (gmap string object)) key :
  data !! MERGE_MACRO = Some (Complete (VStr s)) → s ≠ "" →
  Forall2 (λ path m, _GetData_result self path = Ok (VDict m))
          (split "," s) merged →
  key ≠ MERGE_MACRO →
  (∀ j m, merged !! j = Some m → m !! key = None) →
  ∃ result : gmap string slot,
    construct_mapping self data = (split "," s, Ok result)
    ∧ result !! key = data !! key.
Proof.
  intros Hkey Hs Hall Hne Hnone.
  eexists. split; [by apply construct_mapping_truthy|].
  rewrite foldl_update_absent by done. by apply lookup_delete_ne.
Qed.

Lemma merge_keeps_other_entries_witness :
  ∃ result : gmap string slot,
    construct_mapping example_loader
      {[ "_COMMON_" := Complete (VStr "foo"); "i" := Complete (VStr "j") ]}
    = (["foo"], Ok result)
    ∧ result !! "i"
      = ({[ "_COMMON_" := Complete (VStr "foo"); "i" := Complete (VStr "j") ]}
           : gmap string slot) !! "i".
Proof.
  apply (merge_keeps_other_entries example_loader
           {[ "_COMMON_" := Complete (VStr "foo"); "i" := Complete (VStr "j") ]}
           "foo" [ {[ "a" := VStr "b"; "c" := VStr "d" ]} ] "i").
  - vm_compute. reflexivity.
  - discriminate.
  - repeat constructor.
  - discriminate.
  - intros [|j] m Hj; [|discriminate]. injection Hj as <-.
    vm_compute. reflexivity.
Defined.

(** The merge of a sequence. *)
Lemma extend_from_paths_splices (self : Loader) (new_list : list slot) paths
    (lists : list (list object)) :
  Forall2 (λ path l, _GetData_result self path = Ok (VList l)) paths lists →
  extend_from_paths self new_list paths
  = (paths, Ok (new_list ++ (Complete <$> concat lists))).
Proof.
  intros Hall. revert new_list.
  induction Hall as [|path l paths lists Hpath _ IH]; intros new_list.
  - simpl. by rewrite app_nil_r.
  - simpl. unfold _GetData, bind, lift. rewrite Hpath. simpl.
    rewrite IH. by rewrite fmap_app, app_assoc.
Qed.

Lemma merge_items_app (self : Loader) (new_list data1 data2 : list slot) :
  merge_items self new_list (data1 ++ data2)
  = bind (merge_items self new_list data1)
         (λ new_list, merge_items self new_list data2).
Proof.
  revert new_list. induction data1 as [|i data1 IH]; intros new_list.
  - simpl. by rewrite bind_ret_l.
  - simpl. destruct i as [[| | |s| |]|]; try apply IH.
    destruct (String.prefix MERGE_MACRO s); [|apply IH].
    rewrite bind_assoc. apply bind_ext_Ok. intros calls l _. apply IH.
Qed.

(** X19.  A sequence with one merge marker, whose comma-separated paths
    all resolve to sequences of the common data, becomes the sequence in
    which the items of these sequences, in order, take the place of the
    marker; the items before and after the marker keep their order. *)
Theorem construct_sequence_splices (self : Loader)
    (before after : list slot) (attribute_path : string)
    (lists : list (list object)) :
  Forall (λ i, is_merge_item i = false) before →
  Forall (λ i, is_merge_item i = false) after →
  Forall2 (λ path l, _GetData_result self path = Ok (VList l))
          (split "," attribute_path) lists →
  construct_sequence self
    (before ++ Complete (VStr ("_COMMON_" +:+ attribute_path)) :: after)
  = (split "," attribute_path,
     Ok (before ++ (Complete <$> concat lists) ++ after)).
Proof.
  intros Hbefore Hafter Hall. unfold construct_sequence.
  rewrite merge_items_app, (merge_items_plain self [] before Hbefore).
  rewrite bind_ret_l. simpl.
  change ("" +:+ attribute_path) with attribute_path.
  assert (String.prefix "" attribute_path = true) as ->
    by (by destruct attribute_path).
  rewrite (extend_from_paths_splices self _ _ lists Hall).
  unfold bind. cbn beta iota.
  rewrite (merge_items_plain self _ after Hafter).
  unfold ret. by rewrite app_nil_r, <- app_assoc.
Qed.

Lemma construct_sequence_splices_witness :
  construct_sequence example_loader
    [Complete (VStr ("_COMMON_" +:+ "baz"));
     Pending (VDict {[ "i" := VStr "j" ]})]
  = (["baz"],
     Ok ([] ++ (Complete <$> concat [[VDict {[ "e" := VStr "f" ]};
                                      VDict {[ "g" := VStr "h" ]}]])
            ++ [Pending (VDict {[ "i" := VStr "j" ]})])).
Proof.
  apply (construct_sequence_splices example_loader []
           [Pending (VDict {[ "i" := VStr "j" ]})] "baz"
           [[VDict {[ "e" := VStr "f" ]}; VDict {[ "g" := VStr "h" ]}]]).
  - constructor.
  - repeat constructor.
  - repeat constructor.
Defined.

(** ** Reading the common data in a session *)

Lemma reads_of_app path (calls1 calls2 : list io_event) :
  reads_of path (calls1 ++ calls2)
  = reads_of path calls1 + reads_of path calls2.
Proof. unfold reads_of. by rewrite filter_app, length_app. Qed.

(** A command file that loads reads the common data of its directory
    once. *)
Lemma load_command_data_reads_once (compose : string → result node)
    (files : gmap string string) (impl_file : string) calls data :
  let common_file_path :=
    os_path_join (os_path_dirname impl_file) "__init__.yaml" in
  is_Some (files !! common_file_path) → impl_file ≠ common_file_path →
  load_command_data compose files impl_file = (calls, Ok data) →
  reads_of common_file_path calls = 1.
Proof.
  intros common_file_path [common_text Hcommon] Hne.
  unfold load_command_data, CreateYamlLoader. fold common_file_path.
  unfold GetData, path_exists, yaml_load, yaml_load_with.
  rewrite Hcommon, bool_decide_eq_true_2 by (by eexists).
  destruct (files !! impl_file) as [text|]; [|done].
  unfold bind, ret. simpl.
  destruct (compose common_text) as [n|?]; [|done].
  destruct (construct_object n) as [common|?]; [|done].
  simpl. intros [= <- _]. unfold reads_of. simpl.
  rewrite !filter_cons, filter_nil.
  rewrite decide_False by congruence.
  rewrite decide_False by done.
  rewrite decide_True by done.
  rewrite decide_False by done.
  rewrite decide_False by done. done.
Qed.

(** X20.  A session that loads, with success, command files of one
    directory that has an [__init__.yaml] reads this file once for every
    command file. *)
Theorem session_reads_common_data_once_per_file
    (compose : string → result node) (files : gmap string string)
    (impl_files : list string) (common_file_path : string)
    (datas : list object) :
  Forall (λ impl_file,
            os_path_join (os_path_dirname impl_file) "__init__.yaml"
            = common_file_path
            ∧ impl_file ≠ common_file_path) impl_files →
  is_Some (files !! common_file_path) →
  (loading_session compose files impl_files).2 = Ok datas →
  reads_of common_file_path (loading_session compose files impl_files).1
  = length impl_files.
Proof.
  intros Hfiles Hcommon. revert datas.
  induction Hfiles as [|impl_file rest [Hdir Hne] _ IH]; intros datas;
    [done|].
  simpl.
  destruct (load_command_data compose files impl_file)
    as [calls [data|e]] eqn:Hload; unfold bind at 1 2; [|done].
  unfold bind.
  destruct (loading_session compose files rest) as [calls' [datas'|e]];
    [|done].
  simpl in *. intros _. rewrite app_nil_r, reads_of_app.
  rewrite (IH datas' eq_refl). subst common_file_path.
  by rewrite (load_command_data_reads_once compose files impl_file calls
                data Hcommon Hne Hload).
Qed.

Lemma session_reads_common_data_once_per_file_witness :
  reads_of "surface/compute/__init__.yaml"
    (loading_session example_compose example_files
       ["surface/compute/list.yaml"; "surface/compute/describe.yaml";
        "surface/compute/list.yaml"]).1
  = 3.
Proof.
  refine (session_reads_common_data_once_per_file example_compose
    example_files
    ["surface/compute/list.yaml"; "surface/compute/describe.yaml";
     "surface/compute/list.yaml"]
    "surface/compute/__init__.yaml" _ _ _ _).
  - repeat constructor; discriminate.
  - eexists. vm_compute. reflexivity.
  - vm_compute. reflexivity.
Defined.

(** Instances of the properties of the loading. *)
Lemma discovered_elements_are_loadable_witness :
  length ["surface/compute"] = 1
  ∧ ∀ k l,
      ({[ "instances" := ["surface/compute/instances"] ]}
         : gmap string (list string)) !! k = Some l
      ∨ ({[ "list" := ["surface/compute/list"; "surface/compute/list.yaml"];
            "describe" := ["surface/compute/describe.yaml"] ]}
           : gmap string (list string)) !! k = Some l →
      l ≠ []
      ∧ ∀ path' release_track construction_id is_command
          yaml_command_translator,
          is_Some (LoadCommonType example_id example_id elements example_FromId
                     example_GetModuleFromPath example_compose example_files
                     l path' release_track construction_id is_command
                     yaml_command_translator).
Proof.
  apply (discovered_elements_are_loadable example_id example_id elements
           example_FromId example_GetModuleFromPath example_compose
           example_files example_ListPackage ["surface/compute"]
           ["compute"]).
  vm_compute. reflexivity.
Defined.

Lemma LoadCommonType_group_reads_no_yaml_witness :
  Forall (λ call, ∃ impl_file,
            impl_file ∈ ["surface/compute/list.py";
                         "surface/compute/list.yaml"]
            ∧ endswith ".yaml" impl_file = false
            ∧ call = CallGetModuleFromPath
                       (name_to_give "1" ["compute"; "list"]) impl_file)
         [CallGetModuleFromPath "__calliope__command__.1.compute.list"
                                "surface/compute/list.py"]
  ∧ (∀ path', reads_of path'
        [CallGetModuleFromPath "__calliope__command__.1.compute.list"
                               "surface/compute/list.py"] = 0)
  ∧ (∀ text, parses_of text
        [CallGetModuleFromPath "__calliope__command__.1.compute.list"
                               "surface/compute/list.py"] = 0)
  ∧ ((∃ impl_file, impl_file ∈ ["surface/compute/list.py";
                                "surface/compute/list.yaml"]
                   ∧ endswith ".yaml" impl_file = true) →
     ∃ e, Raise (A := pyclass example_track)
            (LayoutException
               "You cannot define commands [List] in a command group file: [surface/compute/list.pyc]")
          = Raise e).
Proof.
  apply (LoadCommonType_group_reads_no_yaml example_id example_id elements
           example_FromId example_GetModuleFromPath example_compose
           example_files
           ["surface/compute/list.py"; "surface/compute/list.yaml"]
           ["compute"; "list"] GA "1" None
           ([CallGetModuleFromPath "__calliope__command__.1.compute.list"
                                   "surface/compute/list.py"],
            Raise (LayoutException
                     "You cannot define commands [List] in a command group file: [surface/compute/list.pyc]"))).
  reflexivity.
Defined.

Lemma LoadCommonType_single_command_module_witness :
  LoadCommonType example_id example_id elements example_FromId
    example_GetModuleFromPath example_compose example_files
    ["surface/compute/list.py"] ["compute"; "list"] GA "1" true None
  = Some ([CallGetModuleFromPath (name_to_give "1" ["compute"; "list"])
                                 "surface/compute/list.py"],
          if bool_decide (ValidReleaseTracks example_List = ∅)
             || bool_decide (GA ∈ ValidReleaseTracks example_List)
          then Ok example_List
          else Raise (ReleaseTrackNotImplementedException
                        (not_implemented_msg example_id GA
                           "surface/compute/list.py"))).
Proof.
  apply (LoadCommonType_single_command_module example_id example_id elements
           example_FromId example_GetModuleFromPath example_compose
           example_files "surface/compute/list.py" ["compute"; "list"] GA
           "1" None "surface/compute/list.pyc"
           [OtherObject; TypeObject example_List] example_List).
  - reflexivity.
  - reflexivity.
  - reflexivity.
  - intros a [->|[->|[]%not_elem_of_nil]%elem_of_cons]%elem_of_cons;
      reflexivity.
Defined.

Lemma LoadCommonType_single_yaml_entry_witness :
  LoadCommonType example_id example_id elements example_FromId
    example_GetModuleFromPath example_compose example_files
    ["surface/compute/describe.yaml"] ["compute"; "describe"] BETA "1" true
    (Some example_translate)
  = Some ([CallGetData "surface/compute/describe.yaml";
           CallExists "surface/compute/__init__.yaml";
           CallGetData "surface/compute/__init__.yaml";
           CallYamlLoad "foo: {a: b, c: d}";
           CallYamlLoad "- {bar: !COMMON foo.a}"],
          example_translate ["compute"; "describe"]
            (VDict {[ "bar" := VStr "b" ]})).
Proof.
  apply (LoadCommonType_single_yaml_entry example_id example_id elements
           example_FromId example_GetModuleFromPath example_compose
           example_files "surface/compute/describe.yaml"
           ["compute"; "describe"] BETA "1" example_translate).
  - reflexivity.
  - vm_compute. reflexivity.
  - reflexivity.
Defined.

Lemma LoadCommonType_without_translator_witness :
  LoadCommonType example_id example_id elements example_FromId
    example_GetModuleFromPath example_compose example_files
    ["surface/compute/describe.yaml"; "surface/compute/list.py"]
    ["compute"; "describe"] BETA "1" true None
  = Some ([CallGetData "surface/compute/describe.yaml";
           CallExists "surface/compute/__init__.yaml";
           CallGetData "surface/compute/__init__.yaml";
           CallYamlLoad "foo: {a: b, c: d}";
           CallYamlLoad "- {bar: !COMMON foo.a}"],
          Raise (CommandLoadFailure (join "." ["compute"; "describe"])
                   "No yaml command translator has been registered")).
Proof.
  apply (LoadCommonType_without_translator example_id example_id elements
           example_FromId example_GetModuleFromPath example_compose
           example_files "surface/compute/describe.yaml"
           ["surface/compute/list.py"] ["compute"; "describe"] BETA "1" _
           (VList [VDict {[ "bar" := VStr "b" ]}])).
  - reflexivity.
  - vm_compute. reflexivity.
Defined.

Lemma LoadCommonType_wraps_import_failure_witness :
  LoadCommonType example_id example_id elements example_FromId
    example_GetModuleFromPath example_compose example_files
    ["surface/compute/ssh.py"; "surface/compute/list.py"]
    ["compute"; "ssh"] GA "1" true None
  = Some ([CallGetModuleFromPath (name_to_give "1" ["compute"; "ssh"])
                                 "surface/compute/ssh.py"],
          Raise (CommandLoadFailure (join "." ["compute"; "ssh"])
                   (exception_str
                      (ImportError
                         "No module named __calliope__command__.1.compute.ssh")))).
Proof.
  apply (LoadCommonType_wraps_import_failure example_id example_id elements
           example_FromId example_GetModuleFromPath example_compose
           example_files "surface/compute/ssh.py"
           ["surface/compute/list.py"] ["compute"; "ssh"] GA "1" true None
           (ImportError
              "No module named __calliope__command__.1.compute.ssh")).
  - reflexivity.
  - reflexivity.
Defined.

(** An import that exits is not turned into a [CommandLoadFailure]. *)
Example import_exit_goes_through :
  LoadCommonType example_id example_id elements example_FromId
    example_GetModuleFromPath example_compose example_files
    ["surface/compute/exit.py"] ["compute"; "exit"] GA "1" true None
  = Some ([CallGetModuleFromPath "__calliope__command__.1.compute.exit"
                                 "surface/compute/exit.py"],
          Raise (SystemExit "1"))
  ∧ LoadCommonType example_id example_id elements example_FromId
      example_GetModuleFromPath example_compose example_files
      ["surface/compute/ssh.py"] ["compute"; "ssh"] GA "1" true None
    = Some ([CallGetModuleFromPath "__calliope__command__.1.compute.ssh"
                                   "surface/compute/ssh.py"],
            Raise (CommandLoadFailure "compute.ssh"
                     "No module named __calliope__command__.1.compute.ssh")).
Proof. split; reflexivity. Qed.

(** ** The implementations of a command file *)

Section yaml_implementations.
Context `{Countable ReleaseTrack}.
Variable FromId : object → result ReleaseTrack.

Lemma implementations_of_entries_Ok_inv (entries : list object)
    (implementations : list (producer ReleaseTrack * gset ReleaseTrack)) :
  implementations_of_entries FromId entries = Ok implementations →
  Forall2 (λ i c, c.1 = TranslateEntry i
                  ∧ entry_tracks FromId i = Ok c.2) entries implementations.
Proof.
  revert implementations.
  induction entries as [|i entries IH]; intros implementations; simpl.
  - intros [= <-]. constructor.
  - destruct (entry_tracks FromId i) as [tracks|e] eqn:Htracks; [|done].
    destruct (implementations_of_entries FromId entries) as [rest|e];
      [|done].
    intros [= <-]. constructor; [done | by apply IH].
Qed.

(** X21.  When [_ImplementationsFromYaml] returns for a document that is
    a sequence, it returns one candidate for every entry, in the order of
    the document; every entry is a mapping, and an entry without
    [release_tracks] gives a candidate that declares no track. *)
Theorem ImplementationsFromYaml_one_candidate_per_entry
    (path : list string) (entries : list object)
    (translate : list string → object → result (pyclass ReleaseTrack))
    (implementations : list (producer ReleaseTrack * gset ReleaseTrack)) :
  _ImplementationsFromYaml FromId path (VList entries) (Some translate)
  = Ok implementations →
  Forall2 (λ i c,
             c.1 = TranslateEntry i
             ∧ ∃ m : gmap string object,
                 i = VDict m
                 ∧ (m !! "release_tracks" = None → c.2 = ∅))
          entries implementations.
Proof.
  unfold _ImplementationsFromYaml. simpl.
  intros Hall%implementations_of_entries_Ok_inv.
  eapply Forall2_impl; [exact Hall|].
  intros i c [Hproducer Htracks]. split; [done|].
  unfold entry_tracks in Htracks. destruct i as [| | | | |m]; try done.
  exists m. split; [done|]. intros Hnone. rewrite Hnone in Htracks.
  simpl in Htracks. by injection Htracks.
Qed.

End yaml_implementations.

Lemma ImplementationsFromYaml_one_candidate_per_entry_witness :
  Forall2 (λ i (c : producer example_track * gset example_track),
             c.1 = TranslateEntry i
             ∧ ∃ m : gmap string object,
                 i = VDict m
                 ∧ (m !! "release_tracks" = None → c.2 = ∅))
    [VDict {[ "release_tracks" := VList [VStr "GA"; VStr "BETA"] ]};
     VDict {[ "help_text" := VStr "List the instances." ]}]
    [(TranslateEntry
        (VDict {[ "release_tracks" := VList [VStr "GA"; VStr "BETA"] ]}),
      ({[GA; BETA]} : gset example_track));
     (TranslateEntry (VDict {[ "help_text" := VStr "List the instances." ]}),
      ∅)].
Proof.
  apply (ImplementationsFromYaml_one_candidate_per_entry example_FromId
           ["compute"; "list"] _ example_translate).
  vm_compute. reflexivity.
Defined.
